(** * System audio recorder: the segmentation engine of system_audio_recorder.py

    A shallow embedding of [RecorderGUI]: the capture loop's body
    ([record_loop]), the control entry point ([toggle]) and the helpers
    [_start_new_song], [_write_block], [_finalize_if_needed],
    [_finalize_and_save], [_trim_and_save] and [_reset_state].

    Modelling conventions.
    - Python integers are [Z]; clock readings ([time.time()]) and RMS levels
      are rationals ([Q]).  One clock reading is taken per processed event.
    - A captured block is the flattened sample array returned by
      [rec.record(BLOCK)]; the level of a block is the reading [rms(data)]
      and travels with the block (a square root has no rational model).
    - The capture thread and the UI thread are interleaved at the granularity
      of a button press and of a loop turn.  A loop turn starts when
      [rec.record] returns: the body runs on the block, then the loop test is
      evaluated; a button press falls while the thread waits in
      [rec.record], so that the block in flight at a stop request is still
      processed by the body (a thread that left at the loop test is a run
      with no block between the stop and the next start).  A second capture
      thread (a start request before the previous thread has left its read)
      is not told apart from the first.
    - [wave] objects are records holding the header parameters and the bytes
      of the data chunk.
    - [self.temp_wav.writeframes] may fail; the failure is an exception that
      leaves [record_loop], as nothing in the source handles it. *)

From Stdlib Require Import List ZArith QArith Qround Bool Lia.
From Stdlib Require Import Ascii String DecimalString DecimalNat.
From Stdlib.Strings Require Import Byte.
From Stdlib Require FinFun.
Import ListNotations.

Local Open Scope Z_scope.

(** ** Parameters (module level constants of the script) *)

Definition SAMPLE_RATE : Z := 44100.
Definition CHANNELS : Z := 2.
Definition BLOCK : Z := 2048.

Definition START_RMS : Q := 3 # 100.
Definition SILENCE_RMS : Q := 6 # 1000.
Definition SILENCE_TIME : Q := 20 # 1.

(** [int(SILENCE_TIME * SAMPLE_RATE / BLOCK) + 2], the [maxlen] of the deque. *)
Definition TAIL_MAXLEN : Z :=
  Qfloor (SILENCE_TIME * inject_Z SAMPLE_RATE / inject_Z BLOCK) + 2.

(** ** Samples, PCM conversion and bytes *)

Definition byte_of_Z (z : Z) : byte :=
  match Byte.of_N (Z.to_N (z mod 256)) with
  | Some b => b
  | None => x00
  end.

(** [np.clip(x, -1.0, 1.0)] on one sample. *)
Definition clip (x : Q) : Q :=
  if Qle_bool x (-1 # 1) then (-1 # 1)
  else if Qle_bool (1 # 1) x then (1 # 1)
  else x.

(** [(x * 32767).astype(np.int16)]: scaling, then truncation towards zero.
    The product is taken exactly; the source rounds it to a float first,
    which can move a value lying within rounding distance of an integer
    across it.  Ranges and saturation are not affected. *)
Definition to_int16 (x : Q) : Z :=
  let y := (x * (32767 # 1))%Q in
  Z.quot (Qnum y) (Zpos (Qden y)).

(** The int16 array kept in the tail buffer. *)
Definition pcm_array := list Z.

Definition to_pcm (data : list Q) : pcm_array :=
  map (fun x => to_int16 (clip x)) data.

(** [pcm.tobytes()]: little endian, two's complement, two bytes a sample. *)
Definition sample_bytes (v : Z) : list byte :=
  [byte_of_Z (v mod 65536); byte_of_Z ((v mod 65536) / 256)].

Definition tobytes (pcm : pcm_array) : list byte :=
  flat_map sample_bytes pcm.

(** Python's [len] as an integer. *)
Definition len {A : Type} (l : list A) : Z := Z.of_nat (List.length l).

(** Python's [frames[:-k]] for an integer [k >= 0]: [-0] is [0], so the
    slice is empty for [k = 0]; otherwise the stop index is [len - k],
    clamped at [0]. *)
Definition slice_to_neg {A : Type} (l : list A) (k : Z) : list A :=
  if k =? 0 then [] else firstn (Z.to_nat (len l - k)) l.

(** ** The [wave] module: writer and reader views of one file *)

Record Wave : Type := mkWave {
  nchannels : Z;
  sampwidth : Z;
  framerate : Z;
  wdata : list byte
}.

(** [wave.open(path, "wb")] followed by the three setters. *)
Definition wave_open_wb (ch sw fr : Z) : Wave :=
  mkWave ch sw fr [].

Definition writeframes (w : Wave) (bs : list byte) : Wave :=
  mkWave (nchannels w) (sampwidth w) (framerate w) (wdata w ++ bs).

Definition framesize (w : Wave) : Z := nchannels w * sampwidth w.

Definition getnframes (w : Wave) : Z := len (wdata w) / framesize w.

Definition readframes (w : Wave) (n : Z) : list byte :=
  firstn (Z.to_nat (n * framesize w)) (wdata w).

(** ** Output files *)

(** [f"{n:03d}"]: decimal, padded with zeros to a width of at least three. *)
Fixpoint zeros (n : nat) : string :=
  match n with
  | O => EmptyString
  | S k => String "0" (zeros k)
  end.

Definition format_03d (n : nat) : string :=
  let s := NilEmpty.string_of_uint (Nat.to_uint n) in
  (zeros (3 - String.length s) ++ s)%string.

(** [song_<seq>_<timestamp>.wav] inside [SAVE_DIR]; the timestamp is kept as
    the clock reading handed to [time.strftime]. *)
Record SavePath : Type := mkSavePath {
  seq_field : string;
  stamp : Q
}.

(** One file written by [_trim_and_save].  [src] and [tail_at_save] are
    history variables: the temporary file the call read back, and the tail
    buffer at the moment of the call. *)
Record Song : Type := mkSong {
  dst : SavePath;
  wav : Wave;
  src : Wave;
  tail_at_save : list pcm_array
}.

(** ** The recorder object and its environment *)

Record Recorder : Type := mkRecorder {
  running : bool;
  song_index : nat;
  recording : bool;
  has_started_song : bool;
  silence_start : option Q;
  start_time : option Q;
  temp_wav : option Wave;
  tail_buffer : list pcm_array;
  (* environment *)
  loop_alive : bool;          (* a thread waits in [rec.record] *)
  songs : list Song           (* SAVE_DIR, oldest first *)
}.

Definition init_recorder : Recorder :=
  mkRecorder false 1%nat false false None None None [] false [].

Definition set_running (b : bool) (r : Recorder) : Recorder :=
  mkRecorder b (song_index r) (recording r) (has_started_song r)
    (silence_start r) (start_time r) (temp_wav r) (tail_buffer r)
    (loop_alive r) (songs r).

Definition set_song_index (n : nat) (r : Recorder) : Recorder :=
  mkRecorder (running r) n (recording r) (has_started_song r)
    (silence_start r) (start_time r) (temp_wav r) (tail_buffer r)
    (loop_alive r) (songs r).

Definition set_silence_start (t : option Q) (r : Recorder) : Recorder :=
  mkRecorder (running r) (song_index r) (recording r) (has_started_song r)
    t (start_time r) (temp_wav r) (tail_buffer r)
    (loop_alive r) (songs r).

Definition set_temp_wav (w : option Wave) (r : Recorder) : Recorder :=
  mkRecorder (running r) (song_index r) (recording r) (has_started_song r)
    (silence_start r) (start_time r) w (tail_buffer r)
    (loop_alive r) (songs r).

Definition set_tail_buffer (b : list pcm_array) (r : Recorder) : Recorder :=
  mkRecorder (running r) (song_index r) (recording r) (has_started_song r)
    (silence_start r) (start_time r) (temp_wav r) b
    (loop_alive r) (songs r).

Definition set_loop_alive (b : bool) (r : Recorder) : Recorder :=
  mkRecorder (running r) (song_index r) (recording r) (has_started_song r)
    (silence_start r) (start_time r) (temp_wav r) (tail_buffer r)
    b (songs r).

Definition add_song (s : Song) (r : Recorder) : Recorder :=
  mkRecorder (running r) (song_index r) (recording r) (has_started_song r)
    (silence_start r) (start_time r) (temp_wav r) (tail_buffer r)
    (loop_alive r) (songs r ++ [s]).

(** [deque.append] on a deque with [maxlen = TAIL_MAXLEN]. *)
Definition deque_append {A : Type} (d : list A) (x : A) : list A :=
  if TAIL_MAXLEN <=? len d then tl d ++ [x] else d ++ [x].

(** ** Exceptions *)

Inductive outcome : Type :=
| Normal (r : Recorder)
| Raised (r : Recorder).

Definition state_of (o : outcome) : Recorder :=
  match o with Normal r | Raised r => r end.

Definition and_then (o : outcome) (k : Recorder -> outcome) : outcome :=
  match o with
  | Normal r => k r
  | Raised r => Raised r
  end.

Notation "o >>> k" := (and_then o k) (at level 61, left associativity).

(** ** Methods of [RecorderGUI] *)

Definition _reset_state (r : Recorder) : Recorder :=
  mkRecorder (running r) (song_index r) false false None None None []
    (loop_alive r) (songs r).

Definition _start_new_song (now : Q) (r : Recorder) : Recorder :=
  mkRecorder (running r) (song_index r) true true None (Some now)
    (Some (wave_open_wb CHANNELS 2 SAMPLE_RATE)) []
    (loop_alive r) (songs r).

(** [write_ok] tells whether [writeframes] succeeds; with no open file the
    attribute access on [None] raises. *)
Definition _write_block (data : list Q) (write_ok : bool) (r : Recorder)
  : outcome :=
  let pcm := to_pcm data in
  match temp_wav r with
  | None => Raised r
  | Some w =>
      if write_ok then
        let r1 := set_temp_wav (Some (writeframes w (tobytes pcm))) r in
        Normal (set_tail_buffer (deque_append (tail_buffer r1) pcm) r1)
      else Raised r
  end.

Definition trim_bytes (r : Recorder) : Z :=
  len (tail_buffer r) * BLOCK * CHANNELS * 2.

Definition _trim_and_save (src : Wave) (path : SavePath) (r : Recorder)
  : Recorder :=
  let frames := readframes src (getnframes src) in
  let final_data :=
    if trim_bytes r <? len frames
    then slice_to_neg frames (trim_bytes r)
    else frames in
  let w := writeframes (wave_open_wb CHANNELS 2 SAMPLE_RATE) final_data in
  add_song (mkSong path w src (tail_buffer r)) r.

Definition _finalize_and_save (now : Q) (r : Recorder) : Recorder :=
  match temp_wav r with
  | None => _reset_state r
  | Some w =>
      let save_path := mkSavePath (format_03d (song_index r)) now in
      let r1 := _trim_and_save w save_path r in
      let r2 := set_song_index (S (song_index r1)) r1 in
      _reset_state r2
  end.

Definition _finalize_if_needed (now : Q) (r : Recorder) : Recorder :=
  if has_started_song r then _finalize_and_save now r else r.

(** The button: start monitoring (a fresh thread enters [record_loop],
    passes the loop test and waits for its first block) or stop it. *)
Definition toggle (now : Q) (r : Recorder) : Recorder :=
  if negb (running r) then
    set_loop_alive true (set_running true (_reset_state r))
  else
    _finalize_if_needed now (set_running false r).

(** The body of [while self.running] in [record_loop], for one block. *)
Definition loop_body (data : list Q) (level now : Q) (write_ok : bool)
    (r : Recorder) : outcome :=
  if Qle_bool START_RMS level then
    let r1 := if negb (recording r) then _start_new_song now r else r in
    _write_block data write_ok r1 >>> fun r2 =>
    Normal (set_silence_start None r2)
  else if negb (has_started_song r) then
    Normal r
  else
    _write_block data write_ok r >>> fun r1 =>
    if negb (Qle_bool SILENCE_RMS level) then
      match silence_start r1 with
      | None => Normal (set_silence_start (Some now) r1)
      | Some t0 =>
          if Qle_bool SILENCE_TIME (now - t0)
          then Normal (_finalize_and_save now r1)
          else Normal r1
      end
    else Normal (set_silence_start None r1).

(** One turn of [record_loop], for the thread that waits in [rec.record]
    ([loop_alive]): the block arrives, the body runs, and the loop test
    [while self.running] is evaluated for the next turn.  A stop request
    that falls during the read does not keep the body from running on that
    block.  An exception ends the thread and leaves the object as it was
    when raised. *)
Definition record_loop (data : list Q) (level now : Q) (write_ok : bool)
    (r : Recorder) : Recorder :=
  if loop_alive r then
    match loop_body data level now write_ok r with
    | Normal r' => if running r' then r' else set_loop_alive false r'
    | Raised r' => set_loop_alive false r'
    end
  else r.

(** ** Events and runs *)

Inductive event : Type :=
| Toggle (now : Q)
| Block_in (data : list Q) (level now : Q) (write_ok : bool).

Definition step (r : Recorder) (e : event) : Recorder :=
  match e with
  | Toggle now => toggle now r
  | Block_in data level now ok => record_loop data level now ok r
  end.

Definition run (evs : list event) (r : Recorder) : Recorder :=
  fold_left step evs r.

(** ** Vocabulary of the properties *)

(** A block as [rec.record(BLOCK)] delivers it: [BLOCK] frames of
    [CHANNELS] samples. *)
Definition wf_event (e : event) : Prop :=
  match e with
  | Toggle _ => True
  | Block_in data _ _ _ => len data = BLOCK * CHANNELS
  end.

(** No write to the temporary file fails. *)
Definition fault_free (e : event) : Prop :=
  match e with
  | Toggle _ => True
  | Block_in _ _ _ ok => ok = true
  end.

Definition header_ok (w : Wave) : Prop :=
  nchannels w = CHANNELS /\ sampwidth w = 2 /\ framerate w = SAMPLE_RATE.

(** The bytes [_trim_and_save] read back for a saved song. *)
Definition frames_read (s : Song) : list byte :=
  readframes (src s) (getnframes (src s)).

(** The trim amount [_trim_and_save] computed for a saved song. *)
Definition trim_of (s : Song) : Z :=
  len (tail_at_save s) * BLOCK * CHANNELS * 2.

(** All bytes of the segment, as written to the temporary file. *)
Definition captured_bytes (s : Song) : Z := len (wdata (src s)).

(** Byte size of the blocks the tail buffer held. *)
Definition tail_window_bytes (s : Song) : Z :=
  len (flat_map tobytes (tail_at_save s)).

Definition saved_bytes (s : Song) : Z := len (wdata (wav s)).

(** Dropping the last [t] bytes when [t] is smaller than the total, keeping
    everything otherwise. *)
Definition trimmed (frames : list byte) (t : Z) : list byte :=
  if t <? len frames then firstn (Z.to_nat (len frames - t)) frames
  else frames.

Definition song_ok (s : Song) : Prop :=
  header_ok (wav s)
  /\ wdata (wav s) = trimmed (frames_read s) (trim_of s)
  /\ (tail_at_save s = [] -> wdata (src s) = []).

Definition block_sized (p : pcm_array) : Prop := len p = BLOCK * CHANNELS.

Definition song_wf (s : Song) : Prop :=
  Forall block_sized (tail_at_save s)
  /\ framesize (src s) = 4
  /\ (len (wdata (src s))) mod 4 = 0.

(** The machine is IDLE when no segment is in progress. *)
Definition idle (r : Recorder) : Prop :=
  recording r = false /\ has_started_song r = false
  /\ silence_start r = None /\ start_time r = None
  /\ temp_wav r = None /\ tail_buffer r = [].

(** Reading a sequence field back as a number. *)
Definition parse_seq (s : string) : option nat :=
  option_map Nat.of_uint (NilEmpty.uint_of_string s).

Definition seq_fields (r : Recorder) : list string :=
  map (fun s => seq_field (dst s)) (songs r).

(** The invariant that holds whatever the events are. *)
Record Inv (r : Recorder) : Prop := mkInv {
  inv_open : has_started_song r = true -> exists w, temp_wav r = Some w;
  inv_empty : tail_buffer r = [] ->
              forall w, temp_wav r = Some w -> wdata w = [];
  inv_index : song_index r = S (List.length (songs r));
  inv_names : seq_fields r = map format_03d (seq 1 (List.length (songs r)));
  inv_songs : Forall song_ok (songs r)
}.

(** The invariant of runs over well-formed blocks. *)
Record InvW (r : Recorder) : Prop := mkInvW {
  invw_tail : Forall block_sized (tail_buffer r);
  invw_temp : forall w, temp_wav r = Some w ->
              framesize w = 4 /\ (len (wdata w)) mod 4 = 0;
  invw_songs : Forall song_wf (songs r)
}.

(** The invariant of runs in which no write fails. *)
Record InvF (r : Recorder) : Prop := mkInvF {
  invf_tail : has_started_song r = true -> tail_buffer r <> [];
  invf_songs : Forall (fun s => tail_at_save s <> []) (songs r)
}.

(** The song [_finalize_and_save] writes from an open temporary file. *)
Definition finalized_song (now : Q) (w : Wave) (r : Recorder) : Song :=
  let frames := readframes w (getnframes w) in
  mkSong (mkSavePath (format_03d (song_index r)) now)
    (writeframes (wave_open_wb CHANNELS 2 SAMPLE_RATE)
       (if trim_bytes r <? len frames
        then slice_to_neg frames (trim_bytes r) else frames))
    w (tail_buffer r).

(** The recorder after a successful [_write_block] on the open file [w]. *)
Definition after_write (data : list Q) (w : Wave) (r : Recorder) : Recorder :=
  set_tail_buffer (deque_append (tail_buffer r) (to_pcm data))
    (set_temp_wav (Some (writeframes w (tobytes (to_pcm data)))) r).

(** The clock reading of an event. *)
Definition clock (e : event) : Q :=
  match e with
  | Toggle now => now
  | Block_in _ _ now _ => now
  end.

(** A block below the silence threshold, written without failure. *)
Definition silent_block (e : event) : Prop :=
  match e with
  | Toggle _ => False
  | Block_in _ level _ ok => (level < SILENCE_RMS)%Q /\ ok = true
  end.

(** A block at or above the silence threshold, written without failure. *)
Definition audible_block (e : event) : Prop :=
  match e with
  | Toggle _ => False
  | Block_in _ level _ ok => (SILENCE_RMS <= level)%Q /\ ok = true
  end.

(** A block at or above the start threshold, written without failure. *)
Definition loud_block (e : event) : Prop :=
  match e with
  | Toggle _ => False
  | Block_in _ level _ ok => (START_RMS <= level)%Q /\ ok = true
  end.

Definition is_block (e : event) : Prop :=
  match e with
  | Toggle _ => False
  | Block_in _ _ _ _ => True
  end.

(** The bytes a list of block events asks to write. *)
Definition block_bytes (e : event) : list byte :=
  match e with
  | Toggle _ => []
  | Block_in data _ _ _ => tobytes (to_pcm data)
  end.

Definition written (evs : list event) : list byte :=
  flat_map block_bytes evs.

(** The state in which a failed write leaves the recorder: the one reached
    when the exception was raised. *)
Definition at_raise (level now : Q) (r : Recorder) : Recorder :=
  if Qle_bool START_RMS level && negb (recording r)
  then _start_new_song now r else r.

(** *** Sample sessions *)

Definition sample_block : list Q :=
  repeat (1 # 2)%Q (Z.to_nat (BLOCK * CHANNELS)).

Definition loud (now : Q) : event := Block_in sample_block (5 # 100) now true.
Definition hush (now : Q) : event := Block_in sample_block (1 # 1000) now true.
Definition hum (now : Q) : event := Block_in sample_block (1 # 100) now true.

(** Start monitoring, one loud block, stop. *)
Definition single_block_session : list event :=
  [Toggle 0; loud 1; Toggle 2].

(** Start monitoring, a loud block, silence until the timer expires. *)
Definition expiry_session : list event :=
  [Toggle 0; loud 1; hush 2; hush 3; hush 21; hush (45 # 2)].

(** Start monitoring, then a loud block whose write fails. *)
Definition failing_session : list event :=
  [Toggle 0; Block_in sample_block (5 # 100) 1 false].

Definition no_song : Song :=
  mkSong (mkSavePath EmptyString 0) (wave_open_wb 0 0 0) (wave_open_wb 0 0 0) [].

(** The first file a session leaves in the save directory. *)
Definition first_song (evs : list event) : Song :=
  nth 0 (songs (run evs init_recorder)) no_song.

(** *** Vocabulary of the further properties *)

(** The values an [np.int16] holds. *)
Definition int16_range (v : Z) : Prop := -32768 <= v <= 32767.

(** The last [k] elements of a list. *)
Definition lastn {A : Type} (k : nat) (l : list A) : list A :=
  skipn (List.length l - k) l.

(** The blocks of the segment in progress account for the temporary file
    and for the tail buffer; [Pb] is a property of every such block. *)
Definition segment_blocks (Pb : pcm_array -> Prop) (w : Wave)
    (tail : list pcm_array) (blocks : list pcm_array) : Prop :=
  Forall Pb blocks
  /\ wdata w = flat_map tobytes blocks
  /\ tail = lastn (Z.to_nat TAIL_MAXLEN) blocks.

Record InvB (Pb : pcm_array -> Prop) (r : Recorder) : Prop := mkInvB {
  invb_temp : forall w, temp_wav r = Some w ->
              exists blocks, segment_blocks Pb w (tail_buffer r) blocks;
  invb_songs : Forall (fun s => exists blocks,
                  segment_blocks Pb (src s) (tail_at_save s) blocks)
                 (songs r)
}.

(** The flags of the recorder agree with each other. *)
Record InvG (r : Recorder) : Prop := mkInvG {
  invg_flags : recording r = has_started_song r;
  invg_idle : has_started_song r = false -> idle r;
  invg_open : has_started_song r = true ->
              exists w t, temp_wav r = Some w /\ header_ok w
                          /\ start_time r = Some t
}.

(** A block below the start threshold. *)
Definition quiet_block (e : event) : Prop :=
  match e with
  | Toggle _ => False
  | Block_in _ level _ _ => (level < START_RMS)%Q
  end.

(** A block event carries blocks with property [Pb]. *)
Definition block_with (Pb : pcm_array -> Prop) (e : event) : Prop :=
  match e with
  | Toggle _ => True
  | Block_in data _ _ _ => Pb (to_pcm data)
  end.

(** A short block, for sessions that are cheap to evaluate. *)
Definition two_loud_blocks : list event := [loud 1; loud 2].


(** *** The object at finalize *)

(** The object as [_finalize_and_save] finds it when event [e] makes the
    recorder save: after [self.running = False] (l.88) for the button,
    after [self._write_block(data)] (l.121) for a block. *)
Definition at_finalize (r : Recorder) (e : event) : Recorder :=
  match e with
  | Toggle _ => set_running false r
  | Block_in data _ _ ok => state_of (_write_block data ok r)
  end.

(** The trim rule in the words of the specification: with [tail] the tail
    buffer, [frames] the bytes read back and [saved] the bytes written to
    the output file, the last [trimBytes] bytes are dropped when
    [trimBytes < totalBytes], and all bytes are kept otherwise. *)
Definition trim_rule (tail : list pcm_array) (frames saved : list byte)
  : Prop :=
  let trimBytes := len tail * BLOCK * CHANNELS * 2 in
  let totalBytes := len frames in
  (trimBytes < totalBytes ->
   exists dropped, frames = saved ++ dropped /\ len dropped = trimBytes)
  /\ (totalBytes <= trimBytes -> saved = frames).

(** A block one frame longer than [BLOCK] frames, and a session whose
    single block is longer than the tail window. *)
Definition long_block : list Q := [1 # 2; 1 # 2] ++ sample_block.

Definition long_block_session : list event :=
  [Toggle 0; Block_in long_block (5 # 100) 1 true].
(** ** Basic facts *)

Lemma len_app {A : Type} (l1 l2 : list A) : len (l1 ++ l2) = len l1 + len l2.
Proof. unfold len. rewrite length_app. lia. Qed.

Lemma len_nonneg {A : Type} (l : list A) : 0 <= len l.
Proof. unfold len. lia. Qed.

Lemma len_nil_iff {A : Type} (l : list A) : len l = 0 <-> l = [].
Proof.
  unfold len. destruct l; simpl; split; intros H; try reflexivity;
    try discriminate; lia.
Qed.

Lemma TAIL_MAXLEN_value : TAIL_MAXLEN = 432.
Proof. reflexivity. Qed.

Lemma block_bytes_pos : 0 < BLOCK * CHANNELS * 2.
Proof. reflexivity. Qed.

Lemma deque_append_not_nil {A : Type} (d : list A) (x : A) :
  deque_append d x <> [].
Proof.
  unfold deque_append. destruct (TAIL_MAXLEN <=? len d);
    intros H; apply app_eq_nil in H; destruct H; discriminate.
Qed.

Lemma deque_append_nil {A : Type} (x : A) : deque_append [] x = [x].
Proof. reflexivity. Qed.

Lemma deque_append_Forall {A : Type} (P : A -> Prop) (d : list A) (x : A) :
  Forall P d -> P x -> Forall P (deque_append d x).
Proof.
  intros Hd Hx. unfold deque_append.
  destruct (TAIL_MAXLEN <=? len d); apply Forall_app; split; auto.
  destruct d; simpl; auto. inversion Hd; auto.
Qed.

Lemma len_tobytes (p : pcm_array) : len (tobytes p) = 2 * len p.
Proof.
  assert (E : List.length (tobytes p) = (2 * List.length p)%nat).
  { unfold tobytes. induction p as [|v p IH]; [reflexivity|].
    cbn [flat_map sample_bytes app List.length]. rewrite IH. lia. }
  unfold len. rewrite E. lia.
Qed.

Lemma len_to_pcm (data : list Q) : len (to_pcm data) = len data.
Proof. unfold to_pcm, len. now rewrite length_map. Qed.

Lemma len_flat_tobytes (t : list pcm_array) :
  Forall block_sized t ->
  len (flat_map tobytes t) = len t * BLOCK * CHANNELS * 2.
Proof.
  induction 1 as [|p t Hp _ IH]; [reflexivity|].
  cbn [flat_map]. rewrite len_app, len_tobytes, IH, Hp.
  unfold len. cbn [List.length]. lia.
Qed.

(** Reading back all frames of a file whose data is a whole number of
    frames returns all of its data. *)
Lemma readframes_all (w : Wave) :
  framesize w = 4 -> (len (wdata w)) mod 4 = 0 ->
  readframes w (getnframes w) = wdata w.
Proof.
  intros Hf Hm. unfold readframes, getnframes. rewrite Hf.
  assert (E : len (wdata w) / 4 * 4 = len (wdata w)).
  { pose proof (Z.div_mod (len (wdata w)) 4). lia. }
  rewrite E. unfold len. rewrite Nat2Z.id. apply firstn_all.
Qed.

Lemma len_trimmed (frames : list byte) (t : Z) :
  0 <= t ->
  len (trimmed frames t) =
  if t <? len frames then len frames - t else len frames.
Proof.
  intros Ht. unfold trimmed. destruct (t <? len frames) eqn:E; [|reflexivity].
  apply Z.ltb_lt in E. unfold len in *. rewrite length_firstn. lia.
Qed.

(** On a non-zero trim amount the Python slice is the plain prefix. *)
Lemma slice_to_neg_pos {A : Type} (l : list A) (k : Z) :
  k <> 0 -> slice_to_neg l k = firstn (Z.to_nat (len l - k)) l.
Proof.
  intros Hk. unfold slice_to_neg. destruct (k =? 0) eqn:E; [|reflexivity].
  apply Z.eqb_eq in E. contradiction.
Qed.


Lemma TAIL_MAXLEN_pos : 0 < TAIL_MAXLEN.
Proof. reflexivity. Qed.

(** A full deque drops its oldest element, so its length never exceeds
    [TAIL_MAXLEN]. *)
Lemma len_deque_append {A : Type} (d : list A) (x : A) :
  len d <= TAIL_MAXLEN ->
  len (deque_append d x) = Z.min (len d + 1) TAIL_MAXLEN.
Proof.
  intros Hd. unfold deque_append. pose proof TAIL_MAXLEN_pos.
  destruct (TAIL_MAXLEN <=? len d) eqn:E.
  - apply Z.leb_le in E. rewrite len_app.
    destruct d as [|a d]; [unfold len in E; simpl in E; lia|].
    unfold len in *. cbn [tl List.length] in *. lia.
  - apply Z.leb_gt in E. rewrite len_app. unfold len in *.
    cbn [List.length]. lia.
Qed.
(** ** Invariants of runs *)

Section RunInvariant.

Variable I : Recorder -> Prop.
Variable P : event -> Prop.
Hypothesis preserve : forall r e, P e -> I r -> I (step r e).

Lemma run_invariant (evs : list event) (r : Recorder) :
  Forall P evs -> I r -> I (run evs r).
Proof.
  revert r. induction evs as [|e evs IH]; intros r Hall Hr; [exact Hr|].
  inversion Hall; subst. simpl. apply IH; auto.
Qed.

End RunInvariant.

Lemma run_app (evs1 evs2 : list event) (r : Recorder) :
  run (evs1 ++ evs2) r = run evs2 (run evs1 r).
Proof. unfold run. apply fold_left_app. Qed.

Lemma Forall_True_events (evs : list event) : Forall (fun _ => True) evs.
Proof. induction evs; constructor; auto. Qed.

(** A property closed under the methods is preserved by every step. *)
Section StepClosure.

Variable I : Recorder -> Prop.
Variable P : event -> Prop.

Hypothesis I_reset : forall r, I r -> I (_reset_state r).
Hypothesis I_start : forall now r, I r -> I (_start_new_song now r).
Hypothesis I_write : forall data level now ok r,
  P (Block_in data level now ok) -> I r ->
  I (state_of (_write_block data ok r)).
Hypothesis I_finalize : forall now r, I r -> I (_finalize_and_save now r).
Hypothesis I_running : forall b r, I r -> I (set_running b r).
Hypothesis I_silence : forall t r, I r -> I (set_silence_start t r).
Hypothesis I_alive : forall b r, I r -> I (set_loop_alive b r).

Lemma closure_toggle (now : Q) (r : Recorder) : I r -> I (toggle now r).
Proof.
  intros HI. unfold toggle, _finalize_if_needed.
  destruct (negb (running r)).
  - apply I_alive, I_running, I_reset, HI.
  - destruct (has_started_song (set_running false r)).
    + apply I_finalize, I_running, HI.
    + apply I_running, HI.
Qed.

Lemma closure_loop_body (data : list Q) (level now : Q) (ok : bool)
    (r : Recorder) :
  P (Block_in data level now ok) -> I r ->
  I (state_of (loop_body data level now ok r)).
Proof.
  intros HP HI. unfold loop_body.
  destruct (Qle_bool START_RMS level).
  - assert (HI1 : I (if negb (recording r)
                     then _start_new_song now r else r)).
    { destruct (negb (recording r)); [apply I_start|]; exact HI. }
    pose proof (I_write data level now ok _ HP HI1) as HW.
    destruct (_write_block data ok _) as [r2|r2]; simpl in *; auto.
  - destruct (negb (has_started_song r)); [exact HI|].
    pose proof (I_write data level now ok _ HP HI) as HW.
    destruct (_write_block data ok r) as [r1|r1]; simpl in *; auto.
    destruct (negb (Qle_bool SILENCE_RMS level)).
    + destruct (silence_start r1) as [t0|]; simpl; auto.
      destruct (Qle_bool SILENCE_TIME (now - t0)); simpl; auto.
    + simpl. auto.
Qed.

Lemma closure_step (r : Recorder) (e : event) : P e -> I r -> I (step r e).
Proof.
  intros HP HI. destruct e as [now|data level now ok]; simpl.
  - apply closure_toggle, HI.
  - unfold record_loop.
    destruct (loop_alive r); [|exact HI].
    pose proof (closure_loop_body data level now ok r HP HI) as HB.
    destruct (loop_body data level now ok r) as [r'|r']; simpl in HB; auto.
    destruct (running r'); auto.
Qed.

End StepClosure.

(** *** The general invariant *)

Lemma Inv_init : Inv init_recorder.
Proof.
  constructor; simpl; auto; try discriminate.
Qed.

Lemma Inv_reset (r : Recorder) : Inv r -> Inv (_reset_state r).
Proof.
  intros [H1 H2 H3 H4 H5]. constructor; simpl; auto; try discriminate.
Qed.

Lemma Inv_start (now : Q) (r : Recorder) : Inv r -> Inv (_start_new_song now r).
Proof.
  intros [H1 H2 H3 H4 H5]. constructor; simpl; auto.
  - intros _. eexists; reflexivity.
  - intros _ w Hw. inversion Hw. reflexivity.
Qed.

Lemma Inv_write (data : list Q) (ok : bool) (r : Recorder) :
  Inv r -> Inv (state_of (_write_block data ok r)).
Proof.
  intros HI. unfold _write_block.
  destruct (temp_wav r) as [w|] eqn:Hw; [|exact HI].
  destruct ok; [|exact HI].
  destruct HI as [H1 H2 H3 H4 H5]. constructor; simpl; auto.
  - intros _. eexists; reflexivity.
  - intros Hnil. exfalso. eapply deque_append_not_nil; eassumption.
Qed.

Lemma Inv_set_running (b : bool) (r : Recorder) : Inv r -> Inv (set_running b r).
Proof. intros [H1 H2 H3 H4 H5]. constructor; simpl; auto. Qed.

Lemma Inv_set_silence (t : option Q) (r : Recorder) :
  Inv r -> Inv (set_silence_start t r).
Proof. intros [H1 H2 H3 H4 H5]. constructor; simpl; auto. Qed.

Lemma Inv_set_alive (b : bool) (r : Recorder) :
  Inv r -> Inv (set_loop_alive b r).
Proof. intros [H1 H2 H3 H4 H5]. constructor; simpl; auto. Qed.

Lemma finalize_open (now : Q) (w : Wave) (r : Recorder) :
  temp_wav r = Some w ->
  _finalize_and_save now r
  = _reset_state
      (set_song_index (S (song_index r)) (add_song (finalized_song now w r) r)).
Proof. intros Hw. unfold _finalize_and_save. rewrite Hw. reflexivity. Qed.

Lemma finalize_closed (now : Q) (r : Recorder) :
  temp_wav r = None -> _finalize_and_save now r = _reset_state r.
Proof. intros Hw. unfold _finalize_and_save. rewrite Hw. reflexivity. Qed.

(** What [_trim_and_save] writes, when an empty tail buffer comes with an
    empty temporary file. *)
Lemma finalized_song_ok (now : Q) (w : Wave) (r : Recorder) :
  (tail_buffer r = [] -> wdata w = []) -> song_ok (finalized_song now w r).
Proof.
  intros Hnil. unfold song_ok, finalized_song. simpl.
  split; [repeat split|]. split; [|exact Hnil].
  unfold frames_read, trim_of, trimmed, trim_bytes. simpl.
  destruct (len (tail_buffer r) * BLOCK * CHANNELS * 2
            <? len (readframes w (getnframes w))) eqn:E; [|reflexivity].
  apply slice_to_neg_pos. intros Hz. apply Z.ltb_lt in E.
  assert (Ht : tail_buffer r = []).
  { apply len_nil_iff. pose proof block_bytes_pos.
    pose proof (len_nonneg (tail_buffer r)). nia. }
  specialize (Hnil Ht). unfold readframes in E. rewrite Hnil in E.
  rewrite firstn_nil in E. rewrite Hz in E. unfold len in E. simpl in E. lia.
Qed.

Lemma Inv_finalize (now : Q) (r : Recorder) :
  Inv r -> Inv (_finalize_and_save now r).
Proof.
  intros HI.
  destruct (temp_wav r) as [w|] eqn:Hw;
    [rewrite (finalize_open now w r Hw)
    |rewrite (finalize_closed now r Hw); apply Inv_reset; exact HI].
  destruct HI as [H1 H2 H3 H4 H5].
  constructor; simpl; auto; try discriminate.
  - rewrite length_app. simpl. lia.
  - unfold seq_fields in *. simpl.
    rewrite map_app, length_app, H4. simpl.
    replace (List.length (songs r) + 1)%nat with (S (List.length (songs r)))
      by lia.
    rewrite seq_S, map_app. simpl. rewrite H3. reflexivity.
  - apply Forall_app. split; [exact H5|].
    constructor; [|constructor].
    apply finalized_song_ok. intros Ht. eapply H2; eauto.
Qed.

Lemma Inv_step (r : Recorder) (e : event) : Inv r -> Inv (step r e).
Proof.
  apply (closure_step Inv (fun _ => True)); auto.
  - exact Inv_reset.
  - exact Inv_start.
  - intros data level now ok r0 _. apply Inv_write.
  - exact Inv_finalize.
  - exact Inv_set_running.
  - exact Inv_set_silence.
  - exact Inv_set_alive.
Qed.

Lemma Inv_run (evs : list event) : Inv (run evs init_recorder).
Proof.
  apply (run_invariant Inv (fun _ => True)).
  - intros r e _. apply Inv_step.
  - apply Forall_True_events.
  - apply Inv_init.
Qed.

(** *** The invariant of well-formed blocks *)

Lemma InvW_init : InvW init_recorder.
Proof. constructor; simpl; auto; discriminate. Qed.

Lemma InvW_reset (r : Recorder) : InvW r -> InvW (_reset_state r).
Proof. intros [H1 H2 H3]. constructor; simpl; auto; discriminate. Qed.

Lemma InvW_start (now : Q) (r : Recorder) :
  InvW r -> InvW (_start_new_song now r).
Proof.
  intros [H1 H2 H3]. constructor; simpl; auto.
  intros w Hw. inversion Hw. split; reflexivity.
Qed.

Lemma InvW_write (data : list Q) (level now : Q) (ok : bool) (r : Recorder) :
  wf_event (Block_in data level now ok) ->
  InvW r -> InvW (state_of (_write_block data ok r)).
Proof.
  simpl. intros Hd HI. unfold _write_block.
  destruct (temp_wav r) as [w|] eqn:Hw; [|exact HI].
  destruct ok; [|exact HI].
  destruct HI as [H1 H2 H3]. destruct (H2 w Hw) as [Hf Hm].
  constructor; simpl; auto.
  - apply deque_append_Forall; [exact H1|].
    unfold block_sized. rewrite len_to_pcm. exact Hd.
  - intros w' Hw'. inversion Hw'; subst w'. unfold framesize in *. simpl.
    split; [exact Hf|].
    rewrite len_app, len_tobytes, len_to_pcm, Hd.
    rewrite Z.add_mod, Hm by lia. reflexivity.
Qed.

Lemma InvW_finalize (now : Q) (r : Recorder) :
  InvW r -> InvW (_finalize_and_save now r).
Proof.
  intros HI.
  destruct (temp_wav r) as [w|] eqn:Hw;
    [rewrite (finalize_open now w r Hw)
    |rewrite (finalize_closed now r Hw); apply InvW_reset; exact HI].
  destruct HI as [H1 H2 H3]. destruct (H2 w Hw) as [Hf Hm].
  constructor; simpl; auto; try discriminate.
  apply Forall_app. split; [exact H3|].
  constructor; [|constructor]. unfold song_wf. simpl. auto.
Qed.

Lemma InvW_step (r : Recorder) (e : event) :
  wf_event e -> InvW r -> InvW (step r e).
Proof.
  apply (closure_step InvW wf_event).
  - exact InvW_reset.
  - exact InvW_start.
  - exact InvW_write.
  - exact InvW_finalize.
  - intros b r0 [H1 H2 H3]. constructor; simpl; auto.
  - intros t r0 [H1 H2 H3]. constructor; simpl; auto.
  - intros b r0 [H1 H2 H3]. constructor; simpl; auto.
Qed.

Lemma InvW_run (evs : list event) :
  Forall wf_event evs -> InvW (run evs init_recorder).
Proof.
  intros H. apply (run_invariant InvW wf_event); auto.
  - intros r e. apply InvW_step.
  - apply InvW_init.
Qed.

(** *** [_write_block] case by case *)

Lemma write_block_open (data : list Q) (w : Wave) (r : Recorder) :
  temp_wav r = Some w ->
  _write_block data true r
  = Normal (set_tail_buffer (deque_append (tail_buffer r) (to_pcm data))
              (set_temp_wav
                 (Some (writeframes w (tobytes (to_pcm data)))) r)).
Proof. intros Hw. unfold _write_block. rewrite Hw. reflexivity. Qed.

Lemma write_block_raised (data : list Q) (ok : bool) (r r' : Recorder) :
  _write_block data ok r = Raised r' -> r' = r.
Proof.
  unfold _write_block. destruct (temp_wav r); [destruct ok|];
    intros H; inversion H; reflexivity.
Qed.

Lemma write_block_failed (data : list Q) (r : Recorder) :
  _write_block data false r = Raised r.
Proof. unfold _write_block. destruct (temp_wav r); reflexivity. Qed.

Lemma write_block_normal (data : list Q) (ok : bool) (r r' : Recorder) :
  _write_block data ok r = Normal r' ->
  tail_buffer r' <> [] /\ songs r' = songs r
  /\ has_started_song r' = has_started_song r.
Proof.
  unfold _write_block. destruct (temp_wav r); [destruct ok|];
    intros H; inversion H; subst r'; simpl.
  repeat split. apply deque_append_not_nil.
Qed.

(** *** The invariant of runs without write failures *)

Lemma InvF_init : InvF init_recorder.
Proof. constructor; simpl; auto; discriminate. Qed.

Lemma InvF_finalize (now : Q) (r : Recorder) :
  tail_buffer r <> [] -> Forall (fun s => tail_at_save s <> []) (songs r) ->
  InvF (_finalize_and_save now r).
Proof.
  intros Ht Hs.
  destruct (temp_wav r) as [w|] eqn:Hw;
    [rewrite (finalize_open now w r Hw)|rewrite (finalize_closed now r Hw)];
    constructor; simpl; auto; try discriminate.
  apply Forall_app. split; [exact Hs|]. constructor; [exact Ht|constructor].
Qed.

Lemma InvF_toggle (now : Q) (r : Recorder) : InvF r -> InvF (toggle now r).
Proof.
  intros [H1 H2]. unfold toggle, _finalize_if_needed.
  destruct (negb (running r)).
  - constructor; simpl; auto; discriminate.
  - destruct (has_started_song (set_running false r)) eqn:E.
    + apply InvF_finalize; simpl; auto.
    + constructor; simpl; auto.
Qed.

Lemma InvF_loop_body (data : list Q) (level now : Q) (r : Recorder) :
  InvF r -> InvF (state_of (loop_body data level now true r)).
Proof.
  intros HI. pose proof HI as [H1 H2]. unfold loop_body.
  destruct (Qle_bool START_RMS level).
  - destruct (recording r); simpl negb; cbv iota.
    + destruct (_write_block data true r) as [r2|r2] eqn:E; simpl.
      * apply write_block_normal in E. destruct E as (Ht & Hs & _).
        constructor; simpl; [auto|rewrite Hs; exact H2].
      * apply write_block_raised in E. subst r2. exact HI.
    + constructor; simpl; auto. intros _. apply deque_append_not_nil.
  - destruct (negb (has_started_song r)); [exact HI|].
    destruct (_write_block data true r) as [r1|r1] eqn:E; simpl;
      [|apply write_block_raised in E; subst r1; exact HI].
    apply write_block_normal in E. destruct E as (Ht & Hs & _).
    assert (HI1 : InvF r1) by (constructor; [auto|rewrite Hs; exact H2]).
    assert (HS : forall t, InvF (set_silence_start t r1))
      by (intros t; constructor; simpl; auto; rewrite Hs; exact H2).
    destruct (negb (Qle_bool SILENCE_RMS level)); simpl; auto.
    destruct (silence_start r1) as [t0|]; simpl; auto.
    destruct (Qle_bool SILENCE_TIME (now - t0)); simpl; auto.
    apply InvF_finalize; [exact Ht|rewrite Hs; exact H2].
Qed.

Lemma InvF_step (r : Recorder) (e : event) :
  fault_free e -> InvF r -> InvF (step r e).
Proof.
  intros Hf HI. destruct e as [now|data level now ok]; simpl in *.
  - apply InvF_toggle, HI.
  - subst ok. unfold record_loop.
    destruct (loop_alive r); [|exact HI].
    assert (HA : forall r0 b, InvF r0 -> InvF (set_loop_alive b r0))
      by (intros r0 b [H1 H2]; constructor; simpl; auto).
    pose proof (InvF_loop_body data level now r HI) as HB.
    destruct (loop_body data level now true r) as [r'|r']; simpl in HB; auto.
    destruct (running r'); auto.
Qed.

Lemma InvF_run (evs : list event) :
  Forall fault_free evs -> InvF (run evs init_recorder).
Proof.
  intros H. apply (run_invariant InvF fault_free); auto.
  - intros r e. apply InvF_step.
  - apply InvF_init.
Qed.

(** *** Sequence fields *)

Lemma parse_seq_zeros (k : nat) (s : string) :
  parse_seq (zeros k ++ s) = parse_seq s.
Proof.
  induction k as [|k IH]; [reflexivity|].
  unfold parse_seq in *. simpl.
  destruct (NilEmpty.uint_of_string (zeros k ++ s)) as [d|];
    destruct (NilEmpty.uint_of_string s) as [d'|]; simpl in *;
    try discriminate; auto.
Qed.

Lemma parse_format_03d (n : nat) : parse_seq (format_03d n) = Some n.
Proof.
  unfold format_03d. rewrite parse_seq_zeros. unfold parse_seq.
  rewrite NilEmpty.usu. simpl. now rewrite DecimalNat.Unsigned.of_to.
Qed.

Lemma format_03d_inj (n m : nat) : format_03d n = format_03d m -> n = m.
Proof.
  intros H. apply (f_equal parse_seq) in H.
  rewrite !parse_format_03d in H. now inversion H.
Qed.

Lemma length_zeros (k : nat) : String.length (zeros k) = k.
Proof. induction k; simpl; auto. Qed.

Lemma string_length_app (s t : string) :
  String.length (s ++ t) = (String.length s + String.length t)%nat.
Proof. induction s; simpl; auto. Qed.

Lemma format_03d_min_width (n : nat) : (3 <= String.length (format_03d n))%nat.
Proof.
  unfold format_03d. rewrite string_length_app, length_zeros. lia.
Qed.

Lemma format_03d_three_digits (n : nat) :
  (n < 1000)%nat -> String.length (format_03d n) = 3%nat.
Proof.
  intros Hn.
  assert (H : forallb (fun i => Nat.eqb (String.length (format_03d i)) 3)
                (seq 0 1000) = true) by (vm_compute; reflexivity).
  rewrite forallb_forall in H. apply Nat.eqb_eq, H, in_seq. lia.
Qed.

(** ** The loop body case by case *)

Lemma Qle_bool_false (x y : Q) : (x < y)%Q -> Qle_bool y x = false.
Proof.
  intros H. destruct (Qle_bool y x) eqn:E; [|reflexivity].
  apply Qle_bool_iff in E. exfalso. exact (Qlt_not_le _ _ H E).
Qed.

Lemma Qle_bool_true (x y : Q) : (x <= y)%Q -> Qle_bool x y = true.
Proof. apply Qle_bool_iff. Qed.

Lemma thresholds_ordered : (SILENCE_RMS < START_RMS)%Q.
Proof. reflexivity. Qed.

Lemma silence_time_pos : (0 < SILENCE_TIME)%Q.
Proof. reflexivity. Qed.

Lemma silent_below_start (level : Q) :
  (level < SILENCE_RMS)%Q -> Qle_bool START_RMS level = false.
Proof.
  intros H. apply Qle_bool_false.
  eapply Qlt_trans; [exact H|exact thresholds_ordered].
Qed.

Lemma write_block_after (data : list Q) (w : Wave) (r : Recorder) :
  temp_wav r = Some w ->
  _write_block data true r = Normal (after_write data w r).
Proof. apply write_block_open. Qed.

Lemma loop_body_start (data : list Q) (level now : Q) (r : Recorder) :
  recording r = false -> (START_RMS <= level)%Q ->
  loop_body data level now true r
  = Normal (set_silence_start None
              (after_write data (wave_open_wb CHANNELS 2 SAMPLE_RATE)
                 (_start_new_song now r))).
Proof.
  intros Hr Hl. unfold loop_body.
  rewrite (Qle_bool_true _ _ Hl), Hr. reflexivity.
Qed.

Lemma loop_body_audible (data : list Q) (level now : Q) (w : Wave)
    (r : Recorder) :
  recording r = true -> has_started_song r = true -> temp_wav r = Some w ->
  (SILENCE_RMS <= level)%Q ->
  loop_body data level now true r
  = Normal (set_silence_start None (after_write data w r)).
Proof.
  intros Hr Hs Hw Hl. unfold loop_body.
  destruct (Qle_bool START_RMS level).
  - rewrite Hr. simpl negb. cbv iota.
    rewrite (write_block_after data w r Hw). reflexivity.
  - rewrite Hs. simpl negb. cbv iota.
    rewrite (write_block_after data w r Hw). simpl.
    rewrite (Qle_bool_true _ _ Hl). reflexivity.
Qed.

Lemma loop_body_silent (data : list Q) (level now : Q) (w : Wave)
    (r : Recorder) :
  has_started_song r = true -> temp_wav r = Some w ->
  (level < SILENCE_RMS)%Q ->
  loop_body data level now true r
  = match silence_start r with
    | None => Normal (set_silence_start (Some now) (after_write data w r))
    | Some t0 =>
        if Qle_bool SILENCE_TIME (now - t0)
        then Normal (_finalize_and_save now (after_write data w r))
        else Normal (after_write data w r)
    end.
Proof.
  intros Hs Hw Hl. unfold loop_body.
  rewrite (silent_below_start level Hl), Hs. simpl negb. cbv iota.
  rewrite (write_block_after data w r Hw). simpl.
  rewrite (Qle_bool_false _ _ Hl). reflexivity.
Qed.

Lemma loop_body_failed (data : list Q) (level now : Q) (r : Recorder) :
  (START_RMS <= level)%Q \/ has_started_song r = true ->
  loop_body data level now false r = Raised (at_raise level now r).
Proof.
  intros H. unfold loop_body, at_raise.
  destruct (Qle_bool START_RMS level) eqn:E.
  - simpl andb. rewrite write_block_failed. reflexivity.
  - destruct H as [H|H].
    + apply Qle_bool_iff in H. congruence.
    + rewrite H. simpl. rewrite write_block_failed. reflexivity.
Qed.

Lemma finalize_keeps_env (now : Q) (r : Recorder) :
  loop_alive (_finalize_and_save now r) = loop_alive r
  /\ running (_finalize_and_save now r) = running r.
Proof.
  unfold _finalize_and_save. destruct (temp_wav r); split; reflexivity.
Qed.

(** The body of the loop never touches [running]: only the button does. *)
Lemma loop_body_keeps_running (data : list Q) (level now : Q) (ok : bool)
    (r : Recorder) :
  running (state_of (loop_body data level now ok r)) = running r.
Proof.
  apply (closure_loop_body (fun x => running x = running r) (fun _ => True));
    auto.
  - intros data0 level0 now0 ok0 x _ H. unfold _write_block.
    destruct (temp_wav x); [destruct ok0|]; exact H.
  - intros now0 x H. destruct (finalize_keeps_env now0 x) as [_ E].
    rewrite E. exact H.
Qed.

Lemma record_loop_live (data : list Q) (level now : Q) (ok : bool)
    (r : Recorder) :
  loop_alive r = true -> running r = true ->
  record_loop data level now ok r
  = match loop_body data level now ok r with
    | Normal r' => r'
    | Raised r' => set_loop_alive false r'
    end.
Proof.
  intros Ha Hr. unfold record_loop. rewrite Ha.
  pose proof (loop_body_keeps_running data level now ok r) as Hk.
  destruct (loop_body data level now ok r) as [r'|r']; [|reflexivity].
  simpl in Hk. rewrite Hk, Hr. reflexivity.
Qed.

Lemma record_loop_dead (data : list Q) (level now : Q) (ok : bool)
    (r : Recorder) :
  loop_alive r = false -> record_loop data level now ok r = r.
Proof. intros Ha. unfold record_loop. rewrite Ha. reflexivity. Qed.

Lemma writeframes_nil (w : Wave) : writeframes w [] = w.
Proof. destruct w. unfold writeframes. simpl. now rewrite app_nil_r. Qed.

Lemma writeframes_app (w : Wave) (a b : list byte) :
  writeframes (writeframes w a) b = writeframes w (a ++ b).
Proof. unfold writeframes. simpl. now rewrite app_assoc. Qed.

Lemma written_cons (e : event) (evs : list event) :
  written (e :: evs) = block_bytes e ++ written evs.
Proof. reflexivity. Qed.

Lemma written_app (evs1 evs2 : list event) :
  written (evs1 ++ evs2) = written evs1 ++ written evs2.
Proof. unfold written. apply flat_map_app. Qed.

(** ** Saved songs of a run *)

Lemma song_of_run_ok (evs : list event) (s : Song) :
  In s (songs (run evs init_recorder)) -> song_ok s.
Proof.
  intros Hin. pose proof (inv_songs _ (Inv_run evs)) as H.
  rewrite Forall_forall in H. apply H, Hin.
Qed.

Lemma song_of_run_wf (evs : list event) (s : Song) :
  Forall wf_event evs -> In s (songs (run evs init_recorder)) -> song_wf s.
Proof.
  intros Hwf Hin. pose proof (invw_songs _ (InvW_run evs Hwf)) as H.
  rewrite Forall_forall in H. apply H, Hin.
Qed.

Lemma trim_of_nonneg (s : Song) : 0 <= trim_of s.
Proof.
  unfold trim_of. pose proof (len_nonneg (tail_at_save s)).
  pose proof block_bytes_pos. nia.
Qed.

Lemma saved_bytes_of_song (s : Song) :
  song_ok s -> song_wf s ->
  tail_window_bytes s = trim_of s
  /\ saved_bytes s
     = (if trim_of s <? captured_bytes s
        then captured_bytes s - trim_of s else captured_bytes s).
Proof.
  intros (_ & Hd & _) (Ht & Hf & Hm).
  split; [apply len_flat_tobytes, Ht|].
  unfold saved_bytes, captured_bytes. rewrite Hd.
  unfold frames_read. rewrite (readframes_all _ Hf Hm).
  apply len_trimmed, trim_of_nonneg.
Qed.

Lemma first_song_In (evs : list event) :
  (0 < List.length (songs (run evs init_recorder)))%nat ->
  In (first_song evs) (songs (run evs init_recorder)).
Proof. intros H. unfold first_song. apply nth_In, H. Qed.

Lemma single_block_session_wf : Forall wf_event single_block_session.
Proof. repeat constructor. Qed.

Lemma single_block_session_saves :
  (0 < List.length (songs (run single_block_session init_recorder)))%nat.
Proof. vm_compute. constructor. Qed.

(** ** Claims about trimming *)

(** C1, as stated, fails: the segment of [single_block_session] holds one
    block, the tail buffer holds that same block, so the captured bytes
    equal the tail window; the claim asks for a saved file of 0 sample
    bytes, and [_trim_and_save] keeps all 8192. *)
Lemma trim_formula_counterexample :
  Forall wf_event single_block_session
  /\ In (first_song single_block_session)
        (songs (run single_block_session init_recorder))
  /\ captured_bytes (first_song single_block_session) = 8192
  /\ tail_window_bytes (first_song single_block_session) = 8192
  /\ saved_bytes (first_song single_block_session) = 8192
  /\ saved_bytes (first_song single_block_session)
     <> captured_bytes (first_song single_block_session)
        - Z.min (tail_window_bytes (first_song single_block_session))
                (captured_bytes (first_song single_block_session)).
Proof.
  split; [exact single_block_session_wf|].
  split; [apply first_song_In, single_block_session_saves|].
  assert (Hc : captured_bytes (first_song single_block_session) = 8192)
    by (vm_compute; reflexivity).
  assert (Ht : tail_window_bytes (first_song single_block_session) = 8192)
    by (vm_compute; reflexivity).
  assert (Hs : saved_bytes (first_song single_block_session) = 8192)
    by (vm_compute; reflexivity).
  rewrite Hc, Ht, Hs. repeat split; discriminate.
Qed.

(** C1, amended: for every song saved in a run over well-formed blocks, the
    saved sample-byte length is [capturedBytes - tailWindowBytes] when the
    tail window is smaller than the captured bytes, and [capturedBytes]
    otherwise (nothing is trimmed from a segment no longer than the tail
    window); in both cases the file carries the header fields of the
    recorder and a whole number of frames. *)
Theorem saved_length_after_trim (evs : list event) (s : Song) :
  Forall wf_event evs ->
  In s (songs (run evs init_recorder)) ->
  saved_bytes s
  = (if tail_window_bytes s <? captured_bytes s
     then captured_bytes s - tail_window_bytes s
     else captured_bytes s)
  /\ header_ok (wav s)
  /\ (saved_bytes s) mod (framesize (wav s)) = 0.
Proof.
  intros Hwf Hin.
  pose proof (song_of_run_ok evs s Hin) as Hok.
  pose proof (song_of_run_wf evs s Hwf Hin) as Hswf.
  destruct (saved_bytes_of_song s Hok Hswf) as (Hw & Hlen).
  destruct Hok as (Hh & _). destruct Hswf as (_ & _ & Hm).
  rewrite Hw. split; [exact Hlen|]. split; [exact Hh|].
  destruct Hh as (Hc & Hsw & _). unfold framesize. rewrite Hc, Hsw.
  change (CHANNELS * 2) with 4.
  apply Z.mod_divide; [lia|]. rewrite Hlen.
  assert (Dc : (4 | captured_bytes s))
    by (apply Z.mod_divide; [lia|exact Hm]).
  assert (Dt : (4 | trim_of s)).
  { exists (len (tail_at_save s) * 2048). unfold trim_of.
    change BLOCK with 2048. change CHANNELS with 2. lia. }
  destruct (trim_of s <? captured_bytes s); [|exact Dc].
  apply Z.divide_sub_r; assumption.
Qed.

Lemma saved_length_after_trim_witness :
  Forall wf_event single_block_session
  /\ In (first_song single_block_session)
        (songs (run single_block_session init_recorder))
  /\ saved_bytes (first_song single_block_session)
     = (if tail_window_bytes (first_song single_block_session)
           <? captured_bytes (first_song single_block_session)
        then captured_bytes (first_song single_block_session)
             - tail_window_bytes (first_song single_block_session)
        else captured_bytes (first_song single_block_session)).
Proof.
  split; [exact single_block_session_wf|].
  split; [apply first_song_In, single_block_session_saves|].
  apply (saved_length_after_trim single_block_session
           (first_song single_block_session)).
  - exact single_block_session_wf.
  - apply first_song_In, single_block_session_saves.
Defined.

(** ** The trim rule *)

Lemma songs_record_loop (data : list Q) (level now : Q) (ok : bool)
    (r : Recorder) :
  songs (record_loop data level now ok r)
  = if loop_alive r
    then songs (state_of (loop_body data level now ok r)) else songs r.
Proof.
  unfold record_loop. destruct (loop_alive r); [|reflexivity].
  destruct (loop_body data level now ok r) as [r'|r']; simpl;
    [destruct (running r')|]; reflexivity.
Qed.

(** The body saves a song through the silence branch only. *)
Lemma loop_body_saves (data : list Q) (level now : Q) (ok : bool)
    (r : Recorder) :
  songs (state_of (loop_body data level now ok r)) <> songs r ->
  exists w,
    has_started_song r = true /\ temp_wav r = Some w
    /\ state_of (_write_block data ok r) = after_write data w r
    /\ state_of (loop_body data level now ok r)
       = _finalize_and_save now (after_write data w r).
Proof.
  unfold loop_body. destruct (Qle_bool START_RMS level).
  - intros H. exfalso. apply H.
    destruct (_write_block data ok _) as [r2|r2] eqn:E; simpl.
    + apply write_block_normal in E. destruct E as (_ & E & _). rewrite E.
      destruct (negb (recording r)); reflexivity.
    + apply write_block_raised in E. subst r2.
      destruct (negb (recording r)); reflexivity.
  - destruct (has_started_song r) eqn:Hs; simpl;
      [|intros H; exfalso; apply H; reflexivity].
    destruct (temp_wav r) as [w|] eqn:Hw.
    + destruct ok;
        [rewrite (write_block_after data w r Hw)
        |rewrite write_block_failed; intros H; exfalso; apply H; reflexivity].
      simpl and_then.
      destruct (negb (Qle_bool SILENCE_RMS level));
        [|intros H; exfalso; apply H; reflexivity].
      destruct (silence_start r) as [t0|];
        [|intros H; exfalso; apply H; reflexivity].
      destruct (Qle_bool SILENCE_TIME (now - t0));
        [|intros H; exfalso; apply H; reflexivity].
      intros _. exists w. repeat split.
    + unfold _write_block. rewrite Hw. intros H. exfalso. apply H. reflexivity.
Qed.

(** A step that saves a song calls [_finalize_and_save] on [at_finalize]. *)
Lemma finalize_site (r : Recorder) (e : event) :
  Inv r -> songs (step r e) <> songs r ->
  exists w,
    temp_wav (at_finalize r e) = Some w
    /\ songs (step r e)
       = songs r ++ [finalized_song (clock e) w (at_finalize r e)]
    /\ (tail_buffer (at_finalize r e) = [] -> wdata w = [])
    /\ has_started_song r = true
    /\ (tail_buffer (at_finalize r e) = tail_buffer r
        \/ tail_buffer (at_finalize r e) <> []).
Proof.
  intros HI. destruct e as [now|data level now ok]; simpl.
  - unfold toggle, _finalize_if_needed.
    destruct (running r); simpl;
      [|intros H; exfalso; apply H; reflexivity].
    destruct (has_started_song r) eqn:Hs;
      [|intros H; exfalso; apply H; reflexivity].
    intros _. destruct (inv_open _ HI Hs) as [w Hw]. exists w.
    rewrite (finalize_open now w (set_running false r) Hw). simpl.
    split; [exact Hw|]. split; [reflexivity|].
    split; [intros Ht; exact (inv_empty _ HI Ht w Hw)|].
    split; [reflexivity|left; reflexivity].
  - rewrite songs_record_loop.
    destruct (loop_alive r); [|intros H; exfalso; apply H; reflexivity].
    intros H. destruct (loop_body_saves _ _ _ _ _ H) as (w & Hs & Hw & E1 & E2).
    rewrite E1, E2.
    exists (writeframes w (tobytes (to_pcm data))).
    split; [reflexivity|].
    rewrite (finalize_open now (writeframes w (tobytes (to_pcm data)))
               (after_write data w r) eq_refl).
    split; [reflexivity|].
    split; [intros Ht; exfalso; exact (deque_append_not_nil _ _ Ht)|].
    split; [exact Hs|right; apply deque_append_not_nil].
Qed.

(** What [_trim_and_save] does to the bytes read back, provided an empty
    tail buffer comes with an empty temporary file. *)
Lemma finalized_song_trim_rule (now : Q) (w : Wave) (r : Recorder) :
  (tail_buffer r = [] -> wdata w = []) ->
  trim_rule (tail_buffer r) (readframes w (getnframes w))
    (wdata (wav (finalized_song now w r))).
Proof.
  intros Hnil.
  destruct (finalized_song_ok now w r Hnil) as (_ & Hd & _).
  rewrite Hd. unfold frames_read, trim_of, trimmed, trim_rule.
  change (src (finalized_song now w r)) with w.
  change (tail_at_save (finalized_song now w r)) with (tail_buffer r).
  set (frames := readframes w (getnframes w)).
  set (t := len (tail_buffer r) * BLOCK * CHANNELS * 2).
  assert (Ht : 0 <= t).
  { unfold t. pose proof (len_nonneg (tail_buffer r)).
    pose proof block_bytes_pos. nia. }
  cbv zeta. split.
  - intros Hlt. pose proof Hlt as Hb. apply Z.ltb_lt in Hb. rewrite Hb.
    exists (skipn (Z.to_nat (len frames - t)) frames).
    split; [symmetry; apply firstn_skipn|].
    unfold len in *. rewrite length_skipn. lia.
  - intros Hle. apply Z.ltb_ge in Hle. rewrite Hle. reflexivity.
Qed.

(** C2: whenever a step of a run saves a file, be it a stop request or a
    block that ends the silence timeout, the temporary file is open at
    finalize and the bytes saved obey the trim rule for the tail buffer
    the object holds at that moment: with
    [trimBytes = len tail_buffer * BLOCK * CHANNELS * 2], the last
    [trimBytes] bytes of the data read back are dropped when
    [trimBytes] is smaller than their number, and the data is kept
    unchanged otherwise. *)
Theorem trim_rule_at_finalize (evs : list event) (e : event) :
  songs (step (run evs init_recorder) e) <> songs (run evs init_recorder) ->
  exists w s,
    temp_wav (at_finalize (run evs init_recorder) e) = Some w
    /\ songs (step (run evs init_recorder) e)
       = songs (run evs init_recorder) ++ [s]
    /\ trim_rule (tail_buffer (at_finalize (run evs init_recorder) e))
         (readframes w (getnframes w)) (wdata (wav s)).
Proof.
  intros H.
  destruct (finalize_site _ e (Inv_run evs) H) as (w & Hw & Hs & Hnil & _).
  exists w, (finalized_song (clock e) w (at_finalize (run evs init_recorder) e)).
  split; [exact Hw|]. split; [exact Hs|].
  apply finalized_song_trim_rule, Hnil.
Qed.

Lemma trim_rule_at_finalize_witness :
  exists w s,
    temp_wav (at_finalize (run long_block_session init_recorder) (Toggle 2))
    = Some w
    /\ songs (step (run long_block_session init_recorder) (Toggle 2))
       = songs (run long_block_session init_recorder) ++ [s]
    /\ len (tail_buffer (at_finalize (run long_block_session init_recorder)
                           (Toggle 2))) = 1
    /\ len (readframes w (getnframes w)) = 8196
    /\ len (wdata (wav s)) = 4.
Proof.
  destruct (trim_rule_at_finalize long_block_session (Toggle 2))
    as (w & s & Hw & Hs & Hrule & _).
  - vm_compute. discriminate.
  - exists w, s. split; [exact Hw|]. split; [exact Hs|].
    split; [reflexivity|].
    assert (Hlen : len (readframes w (getnframes w)) = 8196).
    { vm_compute in Hw. injection Hw as Hw. subst w. vm_compute. reflexivity. }
    split; [exact Hlen|].
    change (len (tail_buffer (at_finalize (run long_block_session init_recorder)
                                (Toggle 2)))) with 1 in Hrule.
    rewrite Hlen in Hrule.
    destruct (Hrule ltac:(reflexivity)) as (dropped & E & Hd).
    rewrite E, len_app, Hd in Hlen.
    change (1 * BLOCK * CHANNELS * 2) with 8192 in Hlen. lia.
Defined.

(** ** Sequence numbers *)

Lemma songs_only_grow_step (r0 r : Recorder) (e : event) :
  (exists l, songs r = songs r0 ++ l) ->
  exists l, songs (step r e) = songs r0 ++ l.
Proof.
  apply (closure_step (fun x => exists l, songs x = songs r0 ++ l)
           (fun _ => True)); auto.
  - intros data level now ok x _ H. unfold _write_block.
    destruct (temp_wav x); [destruct ok|]; exact H.
  - intros now x [l H]. unfold _finalize_and_save.
    destruct (temp_wav x); simpl; [|exists l; exact H].
    exists (l ++ [finalized_song now w x]). rewrite H, app_assoc. reflexivity.
Qed.

Lemma songs_only_grow (evs : list event) (r : Recorder) :
  exists l, songs (run evs r) = songs r ++ l.
Proof.
  apply (run_invariant (fun x => exists l, songs x = songs r ++ l)
           (fun _ => True)).
  - intros x e _. apply songs_only_grow_step.
  - apply Forall_True_events.
  - exists []. now rewrite app_nil_r.
Qed.

(** C8: in any run from process start, the sequence fields of the saved
    files are the [03d] renderings of 1, 2, ..., N in this order, the
    counter stands at N + 1, the fields read back as 1..N and are pairwise
    distinct, the first 999 of them have exactly three digits, and whatever
    follows (segment ends, stops, restarts) only adds files after them. *)
Theorem sequence_numbers (evs : list event) :
  let r := run evs init_recorder in
  let n := List.length (songs r) in
  song_index init_recorder = 1%nat
  /\ seq_fields r = map format_03d (seq 1 n)
  /\ song_index r = S n
  /\ map parse_seq (seq_fields r) = map Some (seq 1 n)
  /\ NoDup (seq_fields r)
  /\ (forall i, (1 <= i <= n)%nat -> (i < 1000)%nat ->
        String.length (nth (i - 1) (seq_fields r) EmptyString) = 3%nat)
  /\ (forall more, exists l,
        songs (run (evs ++ more) init_recorder) = songs r ++ l).
Proof.
  intros r n. pose proof (Inv_run evs) as [_ _ Hi Hn _]. fold r in Hi, Hn.
  fold n in Hn. split; [reflexivity|]. split; [exact Hn|].
  split; [exact Hi|]. split; [|split; [|split]].
  - rewrite Hn, map_map. apply map_ext. intros i. apply parse_format_03d.
  - rewrite Hn. apply Finite.Injective_map_NoDup; [|apply seq_NoDup].
    intros a b. apply format_03d_inj.
  - intros i Hi1 Hi2. rewrite Hn.
    rewrite (nth_indep _ EmptyString (format_03d 0))
      by (rewrite length_map, length_seq; lia).
    rewrite map_nth, seq_nth by lia.
    apply format_03d_three_digits. lia.
  - intros more. rewrite run_app. apply songs_only_grow.
Qed.

(** ** The tail buffer at finalize *)

(** C10, as stated, fails: when the write of the block that opens a
    segment fails, the segment is open and the tail buffer empty; the stop
    request that follows runs finalize, and saves a file, with no block
    in the tail buffer and a trim amount of zero. *)
Lemma empty_tail_buffer_counterexample :
  songs (step (run failing_session init_recorder) (Toggle 2))
  <> songs (run failing_session init_recorder)
  /\ tail_buffer (at_finalize (run failing_session init_recorder) (Toggle 2))
     = []
  /\ trim_bytes (at_finalize (run failing_session init_recorder) (Toggle 2))
     = 0.
Proof.
  split; [vm_compute; discriminate|]. split; reflexivity.
Qed.

(** C10, amended: whenever a step of a run saves a file, the temporary
    file is open at finalize and
    - if no write has failed before, the tail buffer holds at least one
      block, so the trim amount is at least [BLOCK * CHANNELS * 2] bytes;
    - in any case a trim amount of zero comes with an empty temporary
      file: the guard [trim_bytes < len(frames)] fails, the slice
      [frames[:-0]] is not evaluated, and the (empty) data is saved as
      read. *)
Theorem tail_buffer_nonempty_at_finalize (evs : list event) (e : event) :
  songs (step (run evs init_recorder) e) <> songs (run evs init_recorder) ->
  exists w s,
    temp_wav (at_finalize (run evs init_recorder) e) = Some w
    /\ songs (step (run evs init_recorder) e)
       = songs (run evs init_recorder) ++ [s]
    /\ (Forall fault_free evs ->
        tail_buffer (at_finalize (run evs init_recorder) e) <> []
        /\ BLOCK * CHANNELS * 2
           <= trim_bytes (at_finalize (run evs init_recorder) e))
    /\ (trim_bytes (at_finalize (run evs init_recorder) e) = 0 ->
        readframes w (getnframes w) = []
        /\ (trim_bytes (at_finalize (run evs init_recorder) e)
            <? len (readframes w (getnframes w))) = false
        /\ wdata (wav s) = readframes w (getnframes w)).
Proof.
  intros H.
  destruct (finalize_site _ e (Inv_run evs) H)
    as (w & Hw & Hs & Hnil & Hst & Htail).
  set (r := run evs init_recorder) in *.
  exists w, (finalized_song (clock e) w (at_finalize r e)).
  split; [exact Hw|]. split; [exact Hs|].
  pose proof block_bytes_pos as Hk.
  pose proof (len_nonneg (tail_buffer (at_finalize r e))) as Hn.
  split.
  - intros Hf.
    assert (Hne : tail_buffer (at_finalize r e) <> []).
    { destruct Htail as [E|E]; [|exact E].
      rewrite E. apply (invf_tail _ (InvF_run evs Hf)), Hst. }
    split; [exact Hne|].
    assert (Hl : 1 <= len (tail_buffer (at_finalize r e))).
    { destruct (Z.eq_dec (len (tail_buffer (at_finalize r e))) 0) as [E|E];
        [|lia].
      apply len_nil_iff in E. contradiction. }
    unfold trim_bytes. nia.
  - intros Hz.
    assert (Ht : tail_buffer (at_finalize r e) = []).
    { apply len_nil_iff. unfold trim_bytes in Hz. nia. }
    assert (Hr : readframes w (getnframes w) = []).
    { unfold readframes. rewrite (Hnil Ht). apply firstn_nil. }
    split; [exact Hr|]. rewrite Hz, Hr.
    split; [reflexivity|].
    unfold finalized_song. simpl. rewrite Hz, Hr. reflexivity.
Qed.

Lemma tail_buffer_nonempty_at_finalize_witness :
  Forall fault_free [Toggle 0; loud 1]
  /\ exists w s,
       temp_wav (at_finalize (run [Toggle 0; loud 1] init_recorder)
                   (Toggle 2)) = Some w
       /\ songs (step (run [Toggle 0; loud 1] init_recorder) (Toggle 2))
          = songs (run [Toggle 0; loud 1] init_recorder) ++ [s]
       /\ tail_buffer (at_finalize (run [Toggle 0; loud 1] init_recorder)
                         (Toggle 2)) <> []
       /\ BLOCK * CHANNELS * 2
          <= trim_bytes (at_finalize (run [Toggle 0; loud 1] init_recorder)
                           (Toggle 2)).
Proof.
  assert (Hf : Forall fault_free [Toggle 0; loud 1])
    by (repeat constructor).
  split; [exact Hf|].
  destruct (tail_buffer_nonempty_at_finalize [Toggle 0; loud 1] (Toggle 2))
    as (w & s & Hw & Hs & Hff & _).
  - vm_compute. discriminate.
  - exists w, s. split; [exact Hw|]. split; [exact Hs|]. exact (Hff Hf).
Defined.

(** With write failures the tail buffer can be empty at a forced stop, but
    then nothing was captured either. *)
Lemma zero_trim_only_on_empty_capture (evs : list event) (s : Song) :
  In s (songs (run evs init_recorder)) ->
  trim_of s = 0 -> frames_read s = [].
Proof.
  intros Hin Hz. destruct (song_of_run_ok evs s Hin) as (_ & _ & Hn).
  assert (Ht : tail_at_save s = []).
  { apply len_nil_iff. unfold trim_of in Hz. pose proof block_bytes_pos.
    pose proof (len_nonneg (tail_at_save s)). nia. }
  unfold frames_read, readframes. rewrite (Hn Ht). apply firstn_nil.
Qed.

(** ** Starting a segment *)

(** C4: a block at or above the start threshold that arrives while no
    segment is being recorded opens a new segment, sets the recording
    flags, and is the first (and only) block in the new temporary file and
    in the cleared tail buffer; nothing is saved by that step. *)
Theorem active_block_starts_segment (r : Recorder) (data : list Q)
    (level now : Q) :
  loop_alive r = true -> running r = true -> recording r = false ->
  (START_RMS <= level)%Q ->
  recording (step r (Block_in data level now true)) = true
  /\ has_started_song (step r (Block_in data level now true)) = true
  /\ temp_wav (step r (Block_in data level now true))
     = Some (mkWave CHANNELS 2 SAMPLE_RATE (tobytes (to_pcm data)))
  /\ tail_buffer (step r (Block_in data level now true)) = [to_pcm data]
  /\ start_time (step r (Block_in data level now true)) = Some now
  /\ silence_start (step r (Block_in data level now true)) = None
  /\ songs (step r (Block_in data level now true)) = songs r
  /\ song_index (step r (Block_in data level now true)) = song_index r.
Proof.
  intros Ha Hr Hrec Hl. simpl step.
  rewrite (record_loop_live _ _ _ _ _ Ha Hr).
  rewrite (loop_body_start _ _ _ _ Hrec Hl). simpl.
  repeat split; reflexivity.
Qed.

Lemma active_block_starts_segment_witness :
  tail_buffer (step (run [Toggle 0] init_recorder) (loud 1))
  = [to_pcm sample_block].
Proof.
  apply (active_block_starts_segment (run [Toggle 0] init_recorder)
           sample_block (5 # 100) 1).
  - reflexivity.
  - reflexivity.
  - reflexivity.
  - vm_compute. discriminate.
Defined.

(** ** While the level stays audible *)

Lemma audible_run (evs : list event) :
  forall (r : Recorder) (w : Wave),
  loop_alive r = true -> running r = true -> recording r = true ->
  has_started_song r = true -> temp_wav r = Some w ->
  Forall audible_block evs ->
  loop_alive (run evs r) = true /\ running (run evs r) = true
  /\ recording (run evs r) = true /\ has_started_song (run evs r) = true
  /\ temp_wav (run evs r) = Some (writeframes w (written evs))
  /\ songs (run evs r) = songs r /\ song_index (run evs r) = song_index r
  /\ (evs <> [] -> silence_start (run evs r) = None)
  /\ (len (tail_buffer r) <= TAIL_MAXLEN ->
      len (tail_buffer (run evs r))
      = Z.min (len (tail_buffer r) + len evs) TAIL_MAXLEN).
Proof.
  induction evs as [|e evs IH]; intros r w Ha Hr Hrec Hs Hw Hall.
  - simpl. rewrite writeframes_nil. repeat split; auto.
    + intros H; contradiction.
    + intros H. change (len (@nil event)) with 0. lia.
  - inversion Hall as [|e' evs' He Hevs]; subst.
    destruct e as [now|data level now ok]; [contradiction|].
    destruct He as [Hl Hok]. subst ok.
    assert (E : step r (Block_in data level now true)
                = set_silence_start None (after_write data w r)).
    { simpl step. rewrite (record_loop_live _ _ _ _ _ Ha Hr).
      rewrite (loop_body_audible _ _ _ w _ Hrec Hs Hw Hl). reflexivity. }
    change (run (Block_in data level now true :: evs) r)
      with (run evs (step r (Block_in data level now true))).
    rewrite E.
    destruct (IH (set_silence_start None (after_write data w r))
                (writeframes w (tobytes (to_pcm data))))
      as (H1 & H2 & H3 & H4 & H5 & H6 & H7 & H8 & H9); auto.
    rewrite written_cons. simpl block_bytes.
    rewrite writeframes_app in H5.
    repeat split; auto.
    + intros _. destruct evs as [|e2 evs2]; [reflexivity|].
      apply H8. discriminate.
    + intros Hb.
      pose proof (len_deque_append (tail_buffer r) (to_pcm data) Hb) as Hd.
      change (tail_buffer (set_silence_start None (after_write data w r)))
        with (deque_append (tail_buffer r) (to_pcm data)) in H9.
      rewrite H9 by (rewrite Hd; lia). rewrite Hd.
      replace (len (Block_in data level now true :: evs)) with (1 + len evs)
        by (unfold len; cbn [List.length]; lia).
      pose proof (len_nonneg evs). lia.
Qed.

(** C5: once a segment has started, a sequence of blocks whose level
    stays at or above the silence threshold never finalizes it: no file is
    saved, the counter does not move, the segment stays open with every
    block written, and the silence timestamp is clear after each block. *)
Theorem no_finalize_while_audible (evs : list event) (r : Recorder)
    (w : Wave) :
  loop_alive r = true -> running r = true -> recording r = true ->
  has_started_song r = true -> temp_wav r = Some w ->
  Forall audible_block evs ->
  forall pre post, evs = pre ++ post ->
    songs (run pre r) = songs r
    /\ song_index (run pre r) = song_index r
    /\ recording (run pre r) = true
    /\ has_started_song (run pre r) = true
    /\ temp_wav (run pre r) = Some (writeframes w (written pre))
    /\ (pre <> [] -> silence_start (run pre r) = None).
Proof.
  intros Ha Hr Hrec Hs Hw Hall pre post E. subst evs.
  apply Forall_app in Hall. destruct Hall as [Hpre _].
  destruct (audible_run pre r w Ha Hr Hrec Hs Hw Hpre)
    as (_ & _ & H3 & H4 & H5 & H6 & H7 & H8 & _).
  repeat split; auto.
Qed.

Lemma no_finalize_while_audible_witness :
  songs (run [loud 2; hum 3; hum 30; loud 60]
           (run [Toggle 0; loud 1] init_recorder))
  = songs (run [Toggle 0; loud 1] init_recorder).
Proof.
  apply (no_finalize_while_audible [loud 2; hum 3; hum 30; loud 60]
           (run [Toggle 0; loud 1] init_recorder)
           (mkWave CHANNELS 2 SAMPLE_RATE (tobytes (to_pcm sample_block)))
           eq_refl eq_refl eq_refl eq_refl eq_refl)
    with (post := @nil event).
  - repeat constructor; vm_compute; discriminate.
  - symmetry. apply app_nil_r.
Defined.

(** ** Silence until the timer expires *)

Lemma silent_wait_run (mid : list event) (t0 : Q) :
  forall (r : Recorder) (w : Wave),
  loop_alive r = true -> running r = true ->
  has_started_song r = true -> temp_wav r = Some w ->
  silence_start r = Some t0 ->
  Forall silent_block mid ->
  Forall (fun e => (clock e - t0 < SILENCE_TIME)%Q) mid ->
  loop_alive (run mid r) = true /\ running (run mid r) = true
  /\ has_started_song (run mid r) = true
  /\ temp_wav (run mid r) = Some (writeframes w (written mid))
  /\ silence_start (run mid r) = Some t0
  /\ songs (run mid r) = songs r /\ song_index (run mid r) = song_index r.
Proof.
  induction mid as [|e mid IH]; intros r w Ha Hr Hs Hw Ht Hall Hclk.
  - simpl. rewrite writeframes_nil. repeat split; auto.
  - inversion Hall as [|e' mid' He Hmid]; subst.
    inversion Hclk as [|e' mid' Hc Hcs]; subst.
    destruct e as [now|data level now ok]; [contradiction|].
    destruct He as [Hl Hok]. subst ok. simpl in Hc.
    assert (E : step r (Block_in data level now true) = after_write data w r).
    { simpl step. rewrite (record_loop_live _ _ _ _ _ Ha Hr).
      rewrite (loop_body_silent _ _ _ w _ Hs Hw Hl), Ht.
      rewrite (Qle_bool_false _ _ Hc). reflexivity. }
    change (run (Block_in data level now true :: mid) r)
      with (run mid (step r (Block_in data level now true))).
    rewrite E.
    destruct (IH (after_write data w r)
                (writeframes w (tobytes (to_pcm data))))
      as (H1 & H2 & H3 & H4 & H5 & H6 & H7); auto.
    rewrite written_cons. simpl block_bytes.
    rewrite writeframes_app in H4.
    repeat split; auto.
Qed.

Lemma silent_first_step (r : Recorder) (w : Wave) (first : event) :
  loop_alive r = true -> running r = true ->
  has_started_song r = true -> temp_wav r = Some w ->
  silence_start r = None -> silent_block first ->
  loop_alive (step r first) = true /\ running (step r first) = true
  /\ has_started_song (step r first) = true
  /\ temp_wav (step r first) = Some (writeframes w (block_bytes first))
  /\ silence_start (step r first) = Some (clock first)
  /\ songs (step r first) = songs r
  /\ song_index (step r first) = song_index r.
Proof.
  intros Ha Hr Hs Hw Ht Hf.
  destruct first as [now|data level now ok]; [contradiction|].
  destruct Hf as [Hl Hok]. subst ok. simpl step.
  rewrite (record_loop_live _ _ _ _ _ Ha Hr).
  rewrite (loop_body_silent _ _ _ w _ Hs Hw Hl), Ht. simpl.
  repeat split; auto.
Qed.

Lemma silent_expiry_step (r : Recorder) (w : Wave) (t0 : Q) (last : event) :
  loop_alive r = true -> running r = true ->
  has_started_song r = true -> temp_wav r = Some w ->
  silence_start r = Some t0 -> silent_block last ->
  (SILENCE_TIME <= clock last - t0)%Q ->
  exists s,
    songs (step r last) = songs r ++ [s]
    /\ src s = writeframes w (block_bytes last)
    /\ dst s = mkSavePath (format_03d (song_index r)) (clock last)
    /\ tail_at_save s <> []
    /\ idle (step r last)
    /\ song_index (step r last) = S (song_index r).
Proof.
  intros Ha Hr Hs Hw Ht Hf Hx.
  destruct last as [now|data level now ok]; [contradiction|].
  destruct Hf as [Hl Hok]. subst ok. simpl in Hx. simpl step.
  rewrite (record_loop_live _ _ _ _ _ Ha Hr).
  rewrite (loop_body_silent _ _ _ w _ Hs Hw Hl), Ht.
  rewrite (Qle_bool_true _ _ Hx).
  rewrite (finalize_open now (writeframes w (tobytes (to_pcm data)))
             (after_write data w r) eq_refl).
  eexists. simpl. split; [reflexivity|].
  repeat split; simpl; auto. apply deque_append_not_nil.
Qed.

(** C3: in a segment, when the level drops below the silence threshold at
    block [first] and stays below it, the segment is not finalized at
    [first] nor at any following block whose clock reading is less than
    [SILENCE_TIME] after that of [first]; it is finalized at the first block
    [last] whose reading is at least [SILENCE_TIME] after it, and the saved
    song was read from a temporary file holding every silent block up to
    and including [last]. *)
Theorem finalize_at_first_expired_block (r : Recorder) (w : Wave)
    (first last : event) (mid : list event) :
  loop_alive r = true -> running r = true ->
  has_started_song r = true -> temp_wav r = Some w ->
  silence_start r = None ->
  silent_block first -> Forall silent_block mid -> silent_block last ->
  Forall (fun e => (clock e - clock first < SILENCE_TIME)%Q) mid ->
  (SILENCE_TIME <= clock last - clock first)%Q ->
  (forall pre post, first :: mid = pre ++ post ->
     songs (run pre r) = songs r
     /\ song_index (run pre r) = song_index r
     /\ temp_wav (run pre r) = Some (writeframes w (written pre)))
  /\ exists s,
       songs (run (first :: mid ++ [last]) r) = songs r ++ [s]
       /\ src s = writeframes w (written (first :: mid ++ [last]))
       /\ dst s = mkSavePath (format_03d (song_index r)) (clock last)
       /\ idle (run (first :: mid ++ [last]) r)
       /\ song_index (run (first :: mid ++ [last]) r) = S (song_index r).
Proof.
  intros Ha Hr Hs Hw Ht Hf Hm Hl Hclk Hx.
  destruct (silent_first_step r w first Ha Hr Hs Hw Ht Hf)
    as (F1 & F2 & F3 & F4 & F5 & F6 & F7).
  assert (Hrun : forall l, Forall silent_block l ->
            Forall (fun e => (clock e - clock first < SILENCE_TIME)%Q) l ->
            loop_alive (run (first :: l) r) = true
            /\ running (run (first :: l) r) = true
            /\ has_started_song (run (first :: l) r) = true
            /\ temp_wav (run (first :: l) r)
               = Some (writeframes w (written (first :: l)))
            /\ silence_start (run (first :: l) r) = Some (clock first)
            /\ songs (run (first :: l) r) = songs r
            /\ song_index (run (first :: l) r) = song_index r).
  { intros l Hl1 Hl2.
    change (run (first :: l) r) with (run l (step r first)).
    destruct (silent_wait_run l (clock first) (step r first)
                (writeframes w (block_bytes first)) F1 F2 F3 F4 F5 Hl1 Hl2)
      as (H1 & H2 & H3 & H4 & H5 & H6 & H7).
    rewrite written_cons, <- writeframes_app.
    repeat split; auto; congruence. }
  split.
  - intros pre post E. destruct pre as [|e pre].
    + simpl. rewrite writeframes_nil. auto.
    + simpl in E. inversion E; subst e mid.
      apply Forall_app in Hm. apply Forall_app in Hclk.
      destruct Hm as [Hm _]. destruct Hclk as [Hclk _].
      destruct (Hrun pre Hm Hclk) as (_ & _ & _ & H4 & _ & H6 & H7).
      auto.
  - destruct (Hrun mid Hm Hclk) as (H1 & H2 & H3 & H4 & H5 & H6 & H7).
    change (first :: mid ++ [last]) with ((first :: mid) ++ [last]).
    rewrite run_app. change (run [last] ?x) with (step x last).
    destruct (silent_expiry_step (run (first :: mid) r) _ (clock first) last
                H1 H2 H3 H4 H5 Hl Hx)
      as (s & S1 & S2 & S3 & _ & S5 & S6).
    assert (Hb : written [last] = block_bytes last)
      by (unfold written; simpl; apply app_nil_r).
    exists s. split; [rewrite S1, H6; reflexivity|].
    split; [rewrite S2, written_app, writeframes_app, Hb; reflexivity|].
    split; [rewrite S3, H7; reflexivity|].
    split; [exact S5|]. rewrite S6, H7. reflexivity.
Qed.

Lemma finalize_at_first_expired_block_witness :
  exists s,
    songs (run (hush 2 :: [hush 3; hush 21] ++ [hush (45 # 2)])
             (run [Toggle 0; loud 1] init_recorder))
    = songs (run [Toggle 0; loud 1] init_recorder) ++ [s].
Proof.
  destruct (finalize_at_first_expired_block
              (run [Toggle 0; loud 1] init_recorder)
              (mkWave CHANNELS 2 SAMPLE_RATE (tobytes (to_pcm sample_block)))
              (hush 2) (hush (45 # 2)) [hush 3; hush 21]
              eq_refl eq_refl eq_refl eq_refl eq_refl)
    as (_ & s & Hs & _).
  - split; reflexivity.
  - repeat constructor.
  - split; reflexivity.
  - repeat constructor.
  - vm_compute. discriminate.
  - exists s. exact Hs.
Defined.

(** ** Stop requests *)

Lemma idle_after_finalize (now : Q) (r : Recorder) :
  idle (_finalize_and_save now r).
Proof.
  unfold _finalize_and_save. destruct (temp_wav r); repeat split.
Qed.



(** C7: a stop request while no segment is active only clears [running]:
    [_finalize_if_needed] does nothing, no file is written, the counter and
    every other field stay as they were. *)
Theorem stop_while_idle_is_noop (r : Recorder) (now : Q) :
  running r = true -> has_started_song r = false ->
  _finalize_if_needed now r = r
  /\ toggle now r = set_running false r
  /\ songs (toggle now r) = songs r
  /\ song_index (toggle now r) = song_index r
  /\ recording (toggle now r) = recording r
  /\ has_started_song (toggle now r) = false
  /\ silence_start (toggle now r) = silence_start r
  /\ temp_wav (toggle now r) = temp_wav r
  /\ tail_buffer (toggle now r) = tail_buffer r.
Proof.
  intros Hr Hs.
  assert (E : toggle now r = set_running false r).
  { unfold toggle, _finalize_if_needed. rewrite Hr. simpl. rewrite Hs.
    reflexivity. }
  split; [unfold _finalize_if_needed; rewrite Hs; reflexivity|].
  rewrite E. simpl. repeat split; auto.
Qed.

Lemma stop_while_idle_is_noop_witness :
  songs (toggle 5 (run [Toggle 0; hush 1] init_recorder))
  = songs (run [Toggle 0; hush 1] init_recorder)
  /\ song_index (toggle 5 (run [Toggle 0; hush 1] init_recorder)) = 1%nat.
Proof.
  destruct (stop_while_idle_is_noop (run [Toggle 0; hush 1] init_recorder) 5
              eq_refl eq_refl) as (_ & _ & H1 & H2 & _).
  split; [exact H1|]. rewrite H2. reflexivity.
Defined.

(** ** Write failures *)

(** C9, as stated, fails: in [failing_session] the write of the first loud
    block fails; the recorder is not reset to idle (the segment just opened
    stays flagged as being recorded), the capture loop is over, and later
    loud blocks are not listened to. *)
Lemma storage_failure_counterexample :
  let r := run failing_session init_recorder in
  ~ idle r
  /\ recording r = true /\ has_started_song r = true
  /\ running r = true /\ loop_alive r = false
  /\ run [loud 2; loud 3] r = r.
Proof.
  cbv zeta. split.
  - intros (H & _). vm_compute in H. discriminate.
  - repeat split; reflexivity.
Qed.

Lemma dead_loop_ignores_blocks (evs : list event) :
  forall r, loop_alive r = false -> Forall is_block evs -> run evs r = r.
Proof.
  induction evs as [|e evs IH]; intros r Ha Hall; [reflexivity|].
  inversion Hall as [|e' evs' He Hevs]; subst.
  destruct e as [now|data level now ok]; [contradiction|].
  change (run (Block_in data level now ok :: evs) r)
    with (run evs (record_loop data level now ok r)).
  rewrite (record_loop_dead _ _ _ _ _ Ha). apply IH; assumption.
Qed.

(** C9, amended: when the write of a block to the temporary file fails,
    the step produces no output file and leaves the counter alone, but the
    recorder is not reset: it stays as it was when the exception was raised
    (with the segment opened by that very block, if any, still flagged as
    being recorded), and the capture loop is over, so that no later block
    is processed. *)
Theorem write_failure_ends_loop (r : Recorder) (data : list Q)
    (level now : Q) :
  loop_alive r = true -> running r = true ->
  (START_RMS <= level)%Q \/ has_started_song r = true ->
  step r (Block_in data level now false)
  = set_loop_alive false (at_raise level now r)
  /\ songs (step r (Block_in data level now false)) = songs r
  /\ song_index (step r (Block_in data level now false)) = song_index r
  /\ running (step r (Block_in data level now false)) = true
  /\ ~ idle (step r (Block_in data level now false))
  /\ (forall evs, Forall is_block evs ->
        run evs (step r (Block_in data level now false))
        = step r (Block_in data level now false)).
Proof.
  intros Ha Hr Hw.
  assert (E : step r (Block_in data level now false)
              = set_loop_alive false (at_raise level now r)).
  { simpl step. rewrite (record_loop_live _ _ _ _ _ Ha Hr).
    rewrite (loop_body_failed _ _ _ _ Hw). reflexivity. }
  rewrite E. split; [reflexivity|]. unfold at_raise.
  destruct (Qle_bool START_RMS level) eqn:El;
    destruct (recording r) eqn:Erec; simpl;
    (split; [reflexivity|]); (split; [reflexivity|]);
    (split; [exact Hr|]);
    (split; [|intros evs Hevs; apply dead_loop_ignores_blocks;
               [reflexivity|exact Hevs]]);
    intros (H1 & H2 & _); simpl in *; try congruence.
  destruct Hw as [Hw|Hw]; [|congruence].
  apply Qle_bool_iff in Hw. congruence.
Qed.

Lemma write_failure_ends_loop_witness :
  songs (step (run [Toggle 0] init_recorder)
           (Block_in sample_block (5 # 100) 1 false)) = []
  /\ loop_alive (step (run [Toggle 0] init_recorder)
                   (Block_in sample_block (5 # 100) 1 false)) = false.
Proof.
  destruct (write_failure_ends_loop (run [Toggle 0] init_recorder)
              sample_block (5 # 100) 1 eq_refl eq_refl) as (E & Hs & _).
  - left. vm_compute. discriminate.
  - split; [exact Hs|]. rewrite E. reflexivity.
Defined.

(** ** A segment in one piece *)

Lemma loud_is_audible (e : event) : loud_block e -> audible_block e.
Proof.
  destruct e as [now|data level now ok]; [auto|]. intros [Hl Hok].
  split; [|exact Hok]. eapply Qle_trans; [|exact Hl].
  apply Qlt_le_weak, thresholds_ordered.
Qed.

Lemma len_written (evs : list event) :
  Forall loud_block evs -> Forall wf_event evs ->
  len (written evs) = len evs * (BLOCK * CHANNELS * 2).
Proof.
  induction evs as [|e evs IH]; intros Hl Hw; [reflexivity|].
  inversion Hl as [|e1 l1 He Hl']; inversion Hw as [|e2 l2 Hwe Hw']; subst.
  destruct e as [now|data level now ok]; [contradiction|]. simpl in Hwe.
  rewrite written_cons, len_app. simpl block_bytes.
  rewrite len_tobytes, len_to_pcm, Hwe, (IH Hl' Hw').
  unfold len. cbn [List.length].
  change BLOCK with 2048. change CHANNELS with 2. lia.
Qed.

(** X1: monitoring is started, a run of loud blocks is captured, monitoring is
    stopped: one song is saved; it loses the blocks held by the tail buffer
    when the segment has more than [TAIL_MAXLEN] blocks, and is saved whole
    otherwise. *)
Theorem one_segment_session (t0 t1 : Q) (blocks : list event) :
  blocks <> [] -> Forall loud_block blocks -> Forall wf_event blocks ->
  exists s,
    songs (run (Toggle t0 :: blocks ++ [Toggle t1]) init_recorder) = [s]
    /\ captured_bytes s = len blocks * (BLOCK * CHANNELS * 2)
    /\ tail_window_bytes s
       = Z.min (len blocks) TAIL_MAXLEN * (BLOCK * CHANNELS * 2)
    /\ saved_bytes s
       = (if TAIL_MAXLEN <? len blocks
          then (len blocks - TAIL_MAXLEN) * (BLOCK * CHANNELS * 2)
          else len blocks * (BLOCK * CHANNELS * 2)).
Proof.
  intros Hne Hl Hw.
  destruct blocks as [|b rest]; [contradiction|].
  inversion Hl as [|e1 l1 Hb Hrest]; subst.
  destruct b as [now|data level now ok]; [contradiction|].
  destruct Hb as [Hlev Hok]. subst ok.
  set (r0 := toggle t0 init_recorder).
  set (w1 := writeframes (wave_open_wb CHANNELS 2 SAMPLE_RATE)
               (tobytes (to_pcm data))).
  set (r1 := set_silence_start None
               (after_write data (wave_open_wb CHANNELS 2 SAMPLE_RATE)
                  (_start_new_song now r0))).
  assert (E1 : step r0 (Block_in data level now true) = r1).
  { simpl step.
    rewrite (record_loop_live data level now true r0 eq_refl eq_refl).
    rewrite (loop_body_start data level now r0 eq_refl Hlev). reflexivity. }
  assert (Haud : Forall audible_block rest).
  { eapply Forall_impl; [|exact Hrest]. apply loud_is_audible. }
  destruct (audible_run rest r1 w1 eq_refl eq_refl eq_refl eq_refl eq_refl Haud)
    as (_ & A2 & _ & A4 & A5 & A6 & _ & _ & A9).
  assert (Htail : len (tail_buffer r1) = 1) by reflexivity.
  rewrite Htail in A9. specialize (A9 ltac:(pose proof TAIL_MAXLEN_pos; lia)).
  set (evs := Toggle t0 :: Block_in data level now true :: rest).
  assert (Er2 : run evs init_recorder = run rest r1).
  { unfold evs. simpl run. fold r0. fold (step r0 (Block_in data level now true)).
    rewrite E1. reflexivity. }
  set (r2 := run evs init_recorder) in *.
  assert (Hwf : Forall wf_event evs) by (constructor; [exact I|exact Hw]).
  pose proof (Inv_run evs) as HI. pose proof (InvW_run evs Hwf) as HW.
  fold r2 in HI, HW. rewrite <- Er2 in A2, A4, A5, A6, A9.
  set (w2 := writeframes w1 (written rest)) in *.
  destruct (invw_temp _ HW w2 A5) as (Hf & Hm).
  assert (Ht : toggle t1 r2
               = _reset_state
                   (set_song_index (S (song_index (set_running false r2)))
                      (add_song (finalized_song t1 w2 (set_running false r2))
                         (set_running false r2)))).
  { unfold toggle, _finalize_if_needed. rewrite A2. simpl negb. cbv iota.
    change (has_started_song (set_running false r2))
      with (has_started_song r2). rewrite A4.
    apply finalize_open. exact A5. }
  exists (finalized_song t1 w2 (set_running false r2)).
  assert (Hok : song_ok (finalized_song t1 w2 (set_running false r2))).
  { apply finalized_song_ok. intros Hnil. exact (inv_empty _ HI Hnil w2 A5). }
  assert (Hswf : song_wf (finalized_song t1 w2 (set_running false r2))).
  { split; [exact (invw_tail _ HW)|]. split; assumption. }
  destruct (saved_bytes_of_song _ Hok Hswf) as (Hwin & Hsav).
  assert (Hcap : captured_bytes (finalized_song t1 w2 (set_running false r2))
                 = len (Block_in data level now true :: rest)
                   * (BLOCK * CHANNELS * 2)).
  { change (captured_bytes (finalized_song t1 w2 (set_running false r2)))
      with (len (tobytes (to_pcm data) ++ written rest)).
    inversion Hw as [|e2 l2 Hwe Hw']; subst. simpl in Hwe.
    rewrite len_app, len_tobytes, len_to_pcm, Hwe, (len_written rest Hrest Hw').
    unfold len. cbn [List.length].
    change BLOCK with 2048. change CHANNELS with 2. lia. }
  assert (Htrim : trim_of (finalized_song t1 w2 (set_running false r2))
                  = Z.min (len (Block_in data level now true :: rest))
                      TAIL_MAXLEN * (BLOCK * CHANNELS * 2)).
  { change (trim_of (finalized_song t1 w2 (set_running false r2)))
      with (len (tail_buffer r2) * BLOCK * CHANNELS * 2).
    rewrite A9. unfold len. cbn [List.length].
    replace (1 + Z.of_nat (List.length rest))
      with (Z.of_nat (S (List.length rest))) by lia.
    ring. }
  split.
  - change (Toggle t0 :: (Block_in data level now true :: rest) ++ [Toggle t1])
      with (evs ++ [Toggle t1]).
    rewrite run_app. fold r2. change (run [Toggle t1] r2) with (toggle t1 r2).
    rewrite Ht. simpl. rewrite A6. reflexivity.
  - split; [exact Hcap|]. split; [rewrite Hwin; exact Htrim|].
    rewrite Hsav, Htrim, Hcap. pose proof block_bytes_pos as Hpos.
    pose proof TAIL_MAXLEN_pos.
    set (n := len (Block_in data level now true :: rest)).
    set (k := BLOCK * CHANNELS * 2) in *.
    destruct (TAIL_MAXLEN <? n) eqn:En.
    + apply Z.ltb_lt in En. rewrite Z.min_r by lia.
      assert (El : (TAIL_MAXLEN * k <? n * k) = true)
        by (apply Z.ltb_lt; nia).
      rewrite El. lia.
    + apply Z.ltb_ge in En. rewrite Z.min_l by lia.
      rewrite Z.ltb_irrefl. reflexivity.
Qed.

(** ** PCM conversion *)

Lemma clip_cases (x : Q) :
  (clip x = (-1 # 1)%Q /\ (x <= -1 # 1)%Q)
  \/ (clip x = (1 # 1)%Q /\ (1 # 1 <= x)%Q)
  \/ (clip x = x /\ (-1 # 1 < x)%Q /\ (x < 1 # 1)%Q).
Proof.
  unfold clip. destruct (Qle_bool x (-1 # 1)) eqn:E1.
  - left. split; [reflexivity|]. apply Qle_bool_iff, E1.
  - destruct (Qle_bool (1 # 1) x) eqn:E2.
    + right. left. split; [reflexivity|]. apply Qle_bool_iff, E2.
    + right. right. split; [reflexivity|]. split.
      * apply Qnot_le_lt. intros H. apply Qle_bool_iff in H. congruence.
      * apply Qnot_le_lt. intros H. apply Qle_bool_iff in H. congruence.
Qed.

Lemma to_int16_inside (x : Q) :
  (-1 # 1 < x)%Q -> (x < 1 # 1)%Q -> -32767 < to_int16 x < 32767.
Proof.
  destruct x as [a b]. unfold Qlt, to_int16, Qmult. simpl Qnum. simpl Qden.
  intros H1 H2. rewrite Pos.mul_1_r. rewrite Z.mul_1_r in *.
  assert (Hb : 0 < Z.pos b) by reflexivity.
  destruct (Z_le_gt_dec 0 a) as [Ha|Ha].
  - rewrite Z.quot_div_nonneg by lia. split.
    + apply Z.lt_le_trans with 0; [lia|]. apply Z.div_pos; lia.
    + apply Z.div_lt_upper_bound; lia.
  - replace (a * 32767) with (- (- a * 32767)) by lia.
    rewrite Z.quot_opp_l by lia. rewrite Z.quot_div_nonneg by lia.
    assert (0 <= - a * 32767 / Z.pos b) by (apply Z.div_pos; lia).
    assert (- a * 32767 / Z.pos b < 32767)
      by (apply Z.div_lt_upper_bound; lia).
    lia.
Qed.

Lemma pcm_samples_never_wrap_range (x : Q) :
  -32767 <= to_int16 (clip x) <= 32767.
Proof.
  destruct (clip_cases x) as [[E H]|[[E H]|[E [H1 H2]]]]; rewrite E.
  - vm_compute; split; discriminate.
  - vm_compute; split; discriminate.
  - pose proof (to_int16_inside x H1 H2). lia.
Qed.

(** X2: [_write_block] clips before scaling, so every sample it stores is
    between -32767 and 32767 and the cast to int16 never wraps; samples at
    or beyond full scale saturate. *)
Theorem pcm_samples_never_wrap (x : Q) :
  -32767 <= to_int16 (clip x) <= 32767
  /\ ((1 # 1 <= x)%Q -> to_int16 (clip x) = 32767)
  /\ ((x <= -1 # 1)%Q -> to_int16 (clip x) = -32767)
  /\ ((-1 # 1 < x)%Q -> (x < 1 # 1)%Q -> to_int16 (clip x) = to_int16 x).
Proof.
  destruct (clip_cases x) as [[E H]|[[E H]|[E [H1 H2]]]]; rewrite E.
  - split; [vm_compute; split; discriminate|].
    split; [|split].
    + intros H'. exfalso. apply (Qlt_not_le (-1 # 1) (1 # 1)); [reflexivity|].
      eapply Qle_trans; eassumption.
    + intros _. reflexivity.
    + intros H'. exfalso. exact (Qlt_not_le _ _ H' H).
  - split; [vm_compute; split; discriminate|].
    split; [|split].
    + intros _. reflexivity.
    + intros H'. exfalso. apply (Qlt_not_le (-1 # 1) (1 # 1)); [reflexivity|].
      eapply Qle_trans; eassumption.
    + intros _ H'. exfalso. exact (Qlt_not_le _ _ H' H).
  - pose proof (to_int16_inside x H1 H2). split; [lia|].
    split; [|split].
    + intros H'. exfalso. exact (Qlt_not_le _ _ H2 H').
    + intros H'. exfalso. exact (Qlt_not_le _ _ H1 H').
    + intros _ _. reflexivity.
Qed.

Lemma pcm_samples_never_wrap_witness :
  to_int16 (clip (3 # 2)) = 32767 /\ to_int16 (clip (-7 # 2)) = -32767
  /\ to_int16 (clip (1 # 2)) = to_int16 (1 # 2).
Proof.
  destruct (pcm_samples_never_wrap (3 # 2)) as (_ & H1 & _).
  destruct (pcm_samples_never_wrap (-7 # 2)) as (_ & _ & H2 & _).
  destruct (pcm_samples_never_wrap (1 # 2)) as (_ & _ & _ & H3).
  split; [apply H1; vm_compute; discriminate|].
  split; [apply H2; vm_compute; discriminate|].
  apply H3; reflexivity.
Defined.

Lemma to_pcm_in_range (data : list Q) : Forall int16_range (to_pcm data).
Proof.
  unfold to_pcm. apply Forall_forall. intros v Hv.
  apply in_map_iff in Hv. destruct Hv as (x & <- & _).
  destruct (pcm_samples_never_wrap_range x) as [H1 H2].
  unfold int16_range. lia.
Qed.

(** ** The byte encoding of samples *)

Lemma byte_of_Z_to_N (z : Z) :
  Byte.to_N (byte_of_Z z) = Z.to_N (z mod 256).
Proof.
  unfold byte_of_Z.
  destruct (Byte.of_N (Z.to_N (z mod 256))) as [b|] eqn:E.
  - apply Byte.to_of_N, E.
  - apply Byte.of_N_None_iff in E.
    pose proof (Z.mod_pos_bound z 256 ltac:(lia)). lia.
Qed.

Lemma byte_of_Z_inj (a b : Z) :
  0 <= a < 256 -> 0 <= b < 256 -> byte_of_Z a = byte_of_Z b -> a = b.
Proof.
  intros Ha Hb H. apply (f_equal Byte.to_N) in H.
  rewrite !byte_of_Z_to_N in H.
  rewrite !Z.mod_small in H by lia. lia.
Qed.

Lemma sample_bytes_inj (v v' : Z) :
  int16_range v -> int16_range v' ->
  sample_bytes v = sample_bytes v' -> v = v'.
Proof.
  unfold int16_range, sample_bytes. intros Hv Hv' H.
  inversion H as [[H1 H2]]. clear H.
  pose proof (Z.mod_pos_bound v 65536 ltac:(lia)) as Bu.
  pose proof (Z.mod_pos_bound v' 65536 ltac:(lia)) as Bu'.
  set (u := v mod 65536) in *. set (u' := v' mod 65536) in *.
  apply (f_equal Byte.to_N) in H1. rewrite !byte_of_Z_to_N in H1.
  apply byte_of_Z_inj in H2;
    [|split; [apply Z.div_pos; lia|apply Z.div_lt_upper_bound; lia]
     |split; [apply Z.div_pos; lia|apply Z.div_lt_upper_bound; lia]].
  assert (Hm : u mod 256 = u' mod 256).
  { pose proof (Z.mod_pos_bound u 256 ltac:(lia)).
    pose proof (Z.mod_pos_bound u' 256 ltac:(lia)). lia. }
  assert (Hu : u = u').
  { rewrite (Z.div_mod u 256), (Z.div_mod u' 256) by lia. congruence. }
  unfold u, u' in Hu.
  pose proof (Z.div_mod v 65536 ltac:(lia)).
  pose proof (Z.div_mod v' 65536 ltac:(lia)). lia.
Qed.

Lemma tobytes_inj (p : pcm_array) :
  forall q, Forall int16_range p -> Forall int16_range q ->
  tobytes p = tobytes q -> p = q.
Proof.
  induction p as [|v p IH]; intros [|v' q] Hp Hq H.
  - reflexivity.
  - discriminate.
  - discriminate.
  - inversion Hp; inversion Hq; subst.
    unfold tobytes in H. cbn [flat_map] in H.
    assert (Hs : sample_bytes v = sample_bytes v'
                 /\ flat_map sample_bytes p = flat_map sample_bytes q).
    { unfold sample_bytes in *. cbn [app] in H. inversion H. split; reflexivity. }
    destruct Hs as [Hs Ht]. f_equal.
    + apply sample_bytes_inj; assumption.
    + apply IH; assumption.
Qed.

(** X3: the bytes [_write_block] hands to [writeframes] determine the PCM
    array it keeps in the tail buffer: two blocks with the same bytes have
    the same samples, and a block of [n] samples gives [2 * n] bytes. *)
Theorem pcm_bytes_determine_samples (data data' : list Q) :
  len (tobytes (to_pcm data)) = 2 * len data
  /\ (tobytes (to_pcm data) = tobytes (to_pcm data') ->
      to_pcm data = to_pcm data').
Proof.
  split; [rewrite len_tobytes, len_to_pcm; reflexivity|].
  apply tobytes_inj; apply to_pcm_in_range.
Qed.

Lemma pcm_bytes_determine_samples_witness :
  to_pcm [1 # 2; -3 # 4]%Q = to_pcm [16383 # 32767; -3 # 4]%Q.
Proof.
  apply (pcm_bytes_determine_samples [1 # 2; -3 # 4]%Q
           [16383 # 32767; -3 # 4]%Q).
  reflexivity.
Defined.

(** ** The tail buffer as a window on the segment *)

Lemma tl_skipn {A : Type} (k : nat) (l : list A) :
  tl (skipn k l) = skipn (S k) l.
Proof.
  revert l. induction k as [|k IH]; intros [|a l]; try reflexivity.
  cbn [skipn]. rewrite IH. destruct l; reflexivity.
Qed.

Lemma length_lastn {A : Type} (k : nat) (l : list A) :
  List.length (lastn k l) = Nat.min k (List.length l).
Proof. unfold lastn. rewrite length_skipn. lia. Qed.

Lemma lastn_all {A : Type} (k : nat) (l : list A) :
  (List.length l <= k)%nat -> lastn k l = l.
Proof.
  intros H. unfold lastn.
  replace (List.length l - k)%nat with 0%nat by lia. reflexivity.
Qed.

Lemma TAIL_MAXLEN_nat : Z.of_nat (Z.to_nat TAIL_MAXLEN) = TAIL_MAXLEN.
Proof. apply Z2Nat.id. pose proof TAIL_MAXLEN_pos. lia. Qed.

(** Appending to the deque slides the window by one block. *)
Lemma deque_append_lastn {A : Type} (l : list A) (x : A) :
  deque_append (lastn (Z.to_nat TAIL_MAXLEN) l) x
  = lastn (Z.to_nat TAIL_MAXLEN) (l ++ [x]).
Proof.
  pose proof TAIL_MAXLEN_nat as HM. pose proof TAIL_MAXLEN_pos as Hpos.
  set (M := Z.to_nat TAIL_MAXLEN) in *.
  unfold deque_append, len. rewrite length_lastn, <- HM.
  destruct (Z.of_nat M <=? Z.of_nat (Nat.min M (List.length l))) eqn:E.
  - apply Z.leb_le in E. assert (HMl : (M <= List.length l)%nat) by lia.
    unfold lastn. rewrite tl_skipn, length_app. cbn [List.length].
    rewrite skipn_app.
    replace (List.length l + 1 - M)%nat with (S (List.length l - M)) by lia.
    replace (S (List.length l - M) - List.length l)%nat with 0%nat by lia.
    reflexivity.
  - apply Z.leb_gt in E. assert (HMl : (List.length l < M)%nat) by lia.
    rewrite lastn_all by lia. rewrite lastn_all; [reflexivity|].
    rewrite length_app. cbn [List.length]. lia.
Qed.

Section BlockAccounting.

Variable Pb : pcm_array -> Prop.

Lemma InvB_init : InvB Pb init_recorder.
Proof. constructor; simpl; [discriminate|constructor]. Qed.

Lemma InvB_reset (r : Recorder) : InvB Pb r -> InvB Pb (_reset_state r).
Proof. intros [H1 H2]. constructor; simpl; [discriminate|exact H2]. Qed.

Lemma InvB_start (now : Q) (r : Recorder) :
  InvB Pb r -> InvB Pb (_start_new_song now r).
Proof.
  intros [H1 H2]. constructor; simpl; [|exact H2].
  intros w Hw. inversion Hw; subst w. exists [].
  split; [constructor|]. split; reflexivity.
Qed.

Lemma InvB_write (data : list Q) (level now : Q) (ok : bool) (r : Recorder) :
  block_with Pb (Block_in data level now ok) ->
  InvB Pb r -> InvB Pb (state_of (_write_block data ok r)).
Proof.
  simpl. intros Hd HI. unfold _write_block.
  destruct (temp_wav r) as [w|] eqn:Hw; [|exact HI].
  destruct ok; [|exact HI].
  destruct HI as [H1 H2]. destruct (H1 w Hw) as (blocks & Hb & Hdat & Htail).
  constructor; simpl; [|exact H2].
  intros w' Hw'. inversion Hw'; subst w'.
  exists (blocks ++ [to_pcm data]). split; [|split].
  - apply Forall_app. split; [exact Hb|]. constructor; [exact Hd|constructor].
  - simpl. rewrite Hdat, flat_map_app. simpl. now rewrite app_nil_r.
  - rewrite Htail. apply deque_append_lastn.
Qed.

Lemma InvB_finalize (now : Q) (r : Recorder) :
  InvB Pb r -> InvB Pb (_finalize_and_save now r).
Proof.
  intros HI.
  destruct (temp_wav r) as [w|] eqn:Hw;
    [rewrite (finalize_open now w r Hw)
    |rewrite (finalize_closed now r Hw); apply InvB_reset; exact HI].
  destruct HI as [H1 H2]. constructor; simpl; [discriminate|].
  apply Forall_app. split; [exact H2|].
  constructor; [|constructor]. simpl. apply H1, Hw.
Qed.

Lemma InvB_step (r : Recorder) (e : event) :
  block_with Pb e -> InvB Pb r -> InvB Pb (step r e).
Proof.
  apply (closure_step (InvB Pb) (block_with Pb)).
  - exact InvB_reset.
  - exact InvB_start.
  - exact InvB_write.
  - exact InvB_finalize.
  - intros b r0 [H1 H2]. constructor; simpl; auto.
  - intros t r0 [H1 H2]. constructor; simpl; auto.
  - intros b r0 [H1 H2]. constructor; simpl; auto.
Qed.

Lemma InvB_run (evs : list event) :
  Forall (block_with Pb) evs -> InvB Pb (run evs init_recorder).
Proof.
  intros H. apply (run_invariant (InvB Pb) (block_with Pb)); auto.
  - intros r e. apply InvB_step.
  - apply InvB_init.
Qed.

End BlockAccounting.

Lemma any_block_events (evs : list event) :
  Forall (block_with (fun _ => True)) evs.
Proof.
  induction evs as [|e evs IH]; constructor; auto. destruct e; exact I.
Qed.

Lemma wf_block_events (evs : list event) :
  Forall wf_event evs -> Forall (block_with block_sized) evs.
Proof.
  apply Forall_impl. intros [now|data level now ok]; simpl; auto.
  intros H. unfold block_sized. now rewrite len_to_pcm.
Qed.

(** X4: while a temporary file is open, it is the concatenation of the
    blocks written to the segment so far, and the tail buffer holds the
    last [TAIL_MAXLEN] of these blocks, in order (all of them when there
    are fewer); it never holds more than [TAIL_MAXLEN] blocks. *)
Theorem tail_buffer_is_last_blocks (evs : list event) (w : Wave) :
  temp_wav (run evs init_recorder) = Some w ->
  exists blocks,
    wdata w = flat_map tobytes blocks
    /\ tail_buffer (run evs init_recorder)
       = lastn (Z.to_nat TAIL_MAXLEN) blocks
    /\ len (tail_buffer (run evs init_recorder))
       = Z.min TAIL_MAXLEN (len blocks)
    /\ len (tail_buffer (run evs init_recorder)) <= TAIL_MAXLEN.
Proof.
  intros Hw.
  destruct (invb_temp _ _ (InvB_run _ evs (any_block_events evs)) w Hw)
    as (blocks & _ & Hd & Ht).
  exists blocks. split; [exact Hd|]. split; [exact Ht|].
  assert (Hl : len (tail_buffer (run evs init_recorder))
               = Z.min TAIL_MAXLEN (len blocks)).
  { rewrite Ht. unfold len. rewrite length_lastn.
    pose proof TAIL_MAXLEN_nat. lia. }
  split; [exact Hl|lia].
Qed.

Lemma tail_buffer_is_last_blocks_witness :
  exists blocks,
    tail_buffer (run (Toggle 0 :: two_loud_blocks) init_recorder)
    = lastn (Z.to_nat TAIL_MAXLEN) blocks.
Proof.
  destruct (tail_buffer_is_last_blocks (Toggle 0 :: two_loud_blocks)
              (mkWave CHANNELS 2 SAMPLE_RATE
                 (tobytes (to_pcm sample_block)
                  ++ tobytes (to_pcm sample_block))))
    as (blocks & _ & H & _).
  - vm_compute. reflexivity.
  - exists blocks. exact H.
Defined.

Lemma firstn_flat_blocks (k : nat) :
  forall blocks, Forall block_sized blocks ->
  firstn (k * Z.to_nat (BLOCK * CHANNELS * 2)) (flat_map tobytes blocks)
  = flat_map tobytes (firstn k blocks).
Proof.
  induction k as [|k IH]; intros blocks Hb; [reflexivity|].
  destruct blocks as [|b blocks]; [now rewrite firstn_nil|].
  inversion Hb as [|b' l' Hbs Hrest]; subst.
  cbn [flat_map firstn].
  assert (Hl : List.length (tobytes b) = Z.to_nat (BLOCK * CHANNELS * 2)).
  { pose proof (len_tobytes b) as H. unfold block_sized in Hbs.
    rewrite Hbs in H. unfold len in H. lia. }
  replace (S k * Z.to_nat (BLOCK * CHANNELS * 2))%nat
    with (List.length (tobytes b) + k * Z.to_nat (BLOCK * CHANNELS * 2))%nat
    by (rewrite Hl; lia).
  rewrite firstn_app_2. f_equal. apply IH, Hrest.
Qed.

(** X5: over well-formed blocks, every saved file consists of whole blocks
    of its segment: all of them when the segment has at most [TAIL_MAXLEN]
    blocks, and otherwise all but the last [TAIL_MAXLEN], byte for byte. *)
Theorem saved_file_is_leading_blocks (evs : list event) (s : Song) :
  Forall wf_event evs ->
  In s (songs (run evs init_recorder)) ->
  exists blocks,
    Forall block_sized blocks
    /\ wdata (src s) = flat_map tobytes blocks
    /\ tail_at_save s = lastn (Z.to_nat TAIL_MAXLEN) blocks
    /\ wdata (wav s)
       = flat_map tobytes
           (if TAIL_MAXLEN <? len blocks
            then firstn (List.length blocks - Z.to_nat TAIL_MAXLEN) blocks
            else blocks).
Proof.
  intros Hwf Hin.
  pose proof (invb_songs _ _
                (InvB_run block_sized evs (wf_block_events evs Hwf))) as HB.
  rewrite Forall_forall in HB.
  destruct (HB s Hin) as (blocks & Hb & Hd & Ht).
  exists blocks. split; [exact Hb|]. split; [exact Hd|]. split; [exact Ht|].
  destruct (song_of_run_ok evs s Hin) as (_ & Hw & _).
  destruct (song_of_run_wf evs s Hwf Hin) as (_ & Hf & Hm).
  rewrite Hw. unfold frames_read. rewrite (readframes_all _ Hf Hm).
  unfold trimmed, trim_of. rewrite Ht, Hd.
  rewrite (len_flat_tobytes blocks Hb).
  pose proof TAIL_MAXLEN_nat as HM. pose proof TAIL_MAXLEN_pos as Hpos.
  pose proof block_bytes_pos as Hk.
  set (M := Z.to_nat TAIL_MAXLEN) in *.
  assert (Hlt : len (lastn M blocks) = Z.min TAIL_MAXLEN (len blocks)).
  { unfold len. rewrite length_lastn. lia. }
  rewrite Hlt.
  destruct (TAIL_MAXLEN <? len blocks) eqn:E.
  - apply Z.ltb_lt in E. rewrite Z.min_l by lia.
    assert (El : (TAIL_MAXLEN * BLOCK * CHANNELS * 2
                  <? len blocks * BLOCK * CHANNELS * 2) = true)
      by (apply Z.ltb_lt; nia).
    rewrite El. rewrite <- (firstn_flat_blocks _ blocks Hb). f_equal.
    unfold len in *. nia.
  - apply Z.ltb_ge in E. rewrite Z.min_r by lia.
    rewrite Z.ltb_irrefl. reflexivity.
Qed.

Lemma saved_file_is_leading_blocks_witness :
  exists blocks,
    wdata (wav (first_song single_block_session)) = flat_map tobytes blocks.
Proof.
  destruct (saved_file_is_leading_blocks single_block_session
              (first_song single_block_session))
    as (blocks & _ & Hd & _ & Hw).
  - repeat constructor.
  - apply first_song_In. vm_compute. constructor.
  - eexists. exact Hw.
Defined.

Lemma one_segment_session_witness :
  exists s,
    songs (run (Toggle 0 :: two_loud_blocks ++ [Toggle 9]) init_recorder) = [s]
    /\ captured_bytes s = len two_loud_blocks * (BLOCK * CHANNELS * 2).
Proof.
  destruct (one_segment_session 0 9 two_loud_blocks) as (s & H1 & H2 & _).
  - discriminate.
  - repeat constructor; vm_compute; discriminate.
  - repeat constructor.
  - exists s. split; [exact H1|exact H2].
Defined.

(** ** The flags of the recorder *)

Lemma InvG_init : InvG init_recorder.
Proof. constructor; simpl; [reflexivity|repeat split|discriminate]. Qed.

Lemma InvG_reset (r : Recorder) : InvG r -> InvG (_reset_state r).
Proof.
  intros _. constructor; simpl; [reflexivity|repeat split|discriminate].
Qed.

Lemma InvG_start (now : Q) (r : Recorder) :
  InvG r -> InvG (_start_new_song now r).
Proof.
  intros _. constructor; simpl; [reflexivity|discriminate|].
  intros _. exists (wave_open_wb CHANNELS 2 SAMPLE_RATE), now.
  repeat split.
Qed.

Lemma InvG_write (data : list Q) (ok : bool) (r : Recorder) :
  InvG r -> InvG (state_of (_write_block data ok r)).
Proof.
  intros HI. unfold _write_block.
  destruct (temp_wav r) as [w|] eqn:Hw; [|exact HI].
  destruct ok; [|exact HI].
  destruct HI as [H1 H2 H3]. constructor; simpl.
  - exact H1.
  - intros Hs. destruct (H2 Hs) as (_ & _ & _ & _ & Hn & _). congruence.
  - intros Hs. destruct (H3 Hs) as (w' & t & Hw' & Hh & Ht).
    rewrite Hw in Hw'. inversion Hw'; subst w'.
    exists (writeframes w (tobytes (to_pcm data))), t.
    split; [reflexivity|]. split; [exact Hh|exact Ht].
Qed.

Lemma InvG_finalize (now : Q) (r : Recorder) :
  InvG r -> InvG (_finalize_and_save now r).
Proof.
  intros _. unfold _finalize_and_save.
  destruct (temp_wav r); constructor; simpl;
    try reflexivity; try discriminate; repeat split.
Qed.

Lemma InvG_set_running (b : bool) (r : Recorder) :
  InvG r -> InvG (set_running b r).
Proof. intros [H1 H2 H3]. constructor; simpl; auto. Qed.

Lemma InvG_set_alive (b : bool) (r : Recorder) :
  InvG r -> InvG (set_loop_alive b r).
Proof. intros [H1 H2 H3]. constructor; simpl; auto. Qed.

Lemma InvG_set_silence (t : option Q) (r : Recorder) :
  InvG r -> has_started_song r = true -> InvG (set_silence_start t r).
Proof.
  intros [H1 H2 H3] Hs. constructor; simpl; auto.
  intros Hf. congruence.
Qed.

Lemma InvG_write_normal (data : list Q) (ok : bool) (r r' : Recorder) :
  InvG r -> _write_block data ok r = Normal r' ->
  InvG r' /\ has_started_song r' = true.
Proof.
  intros HI E. pose proof (InvG_write data ok r HI) as HI'.
  rewrite E in HI'. simpl in HI'. split; [exact HI'|].
  unfold _write_block in E. destruct (temp_wav r) as [w|] eqn:Hw;
    [destruct ok|]; inversion E; subst r'. simpl.
  destruct (has_started_song r) eqn:Hs; [reflexivity|].
  destruct (invg_idle _ HI Hs) as (_ & _ & _ & _ & Hn & _). congruence.
Qed.

Lemma InvG_toggle (now : Q) (r : Recorder) : InvG r -> InvG (toggle now r).
Proof.
  intros HI. unfold toggle, _finalize_if_needed.
  destruct (negb (running r)).
  - apply InvG_set_alive, InvG_set_running, InvG_reset, HI.
  - destruct (has_started_song (set_running false r)).
    + apply InvG_finalize, InvG_set_running, HI.
    + apply InvG_set_running, HI.
Qed.

Lemma InvG_loop_body (data : list Q) (level now : Q) (ok : bool)
    (r : Recorder) :
  InvG r -> InvG (state_of (loop_body data level now ok r)).
Proof.
  intros HI. unfold loop_body.
  destruct (Qle_bool START_RMS level).
  - assert (HI1 : InvG (if negb (recording r)
                        then _start_new_song now r else r)).
    { destruct (negb (recording r)); [apply InvG_start|]; exact HI. }
    destruct (_write_block data ok _) as [r2|r2] eqn:E; simpl.
    + destruct (InvG_write_normal _ _ _ _ HI1 E) as [H2 Hs].
      apply InvG_set_silence; assumption.
    + apply write_block_raised in E. subst r2. exact HI1.
  - destruct (negb (has_started_song r)); [exact HI|].
    destruct (_write_block data ok r) as [r1|r1] eqn:E; simpl;
      [|apply write_block_raised in E; subst r1; exact HI].
    destruct (InvG_write_normal _ _ _ _ HI E) as [H1 Hs].
    destruct (negb (Qle_bool SILENCE_RMS level)); simpl;
      [|apply InvG_set_silence; assumption].
    destruct (silence_start r1) as [t0|]; simpl;
      [|apply InvG_set_silence; assumption].
    destruct (Qle_bool SILENCE_TIME (now - t0)); simpl; [|exact H1].
    apply InvG_finalize, H1.
Qed.

Lemma InvG_step (r : Recorder) (e : event) : InvG r -> InvG (step r e).
Proof.
  intros HI. destruct e as [now|data level now ok]; simpl.
  - apply InvG_toggle, HI.
  - unfold record_loop. destruct (loop_alive r); [|exact HI].
    pose proof (InvG_loop_body data level now ok r HI) as HB.
    destruct (loop_body data level now ok r) as [r'|r']; simpl in HB;
      [destruct (running r'); auto|]; apply InvG_set_alive, HB.
Qed.

Lemma InvG_run_from (evs : list event) (r : Recorder) :
  InvG r -> InvG (run evs r).
Proof.
  intros H. apply (run_invariant InvG (fun _ => True)); auto.
  - intros x e _. apply InvG_step.
  - apply Forall_True_events.
Qed.

(** X6: in every reachable state the two segment flags agree; when they
    are clear the recorder is idle (no open file, empty tail buffer, no
    silence or start timestamp); when they are set a temporary file with
    the recorder's header is open and the start time is known. *)
Theorem flags_are_consistent (evs : list event) :
  recording (run evs init_recorder) = has_started_song (run evs init_recorder)
  /\ (has_started_song (run evs init_recorder) = false ->
      idle (run evs init_recorder))
  /\ (has_started_song (run evs init_recorder) = true ->
      exists w t,
        temp_wav (run evs init_recorder) = Some w /\ header_ok w
        /\ start_time (run evs init_recorder) = Some t).
Proof.
  destruct (InvG_run_from evs init_recorder InvG_init) as [H1 H2 H3].
  split; [exact H1|]. split; [exact H2|exact H3].
Qed.

Lemma flags_are_consistent_witness :
  idle (run single_block_session init_recorder)
  /\ exists w t,
       temp_wav (run [Toggle 0; loud 1] init_recorder) = Some w
       /\ header_ok w
       /\ start_time (run [Toggle 0; loud 1] init_recorder) = Some t.
Proof.
  split.
  - apply (flags_are_consistent single_block_session). reflexivity.
  - apply (flags_are_consistent [Toggle 0; loud 1]). reflexivity.
Defined.

(** ** Blocks that are not captured *)

(** X7: while monitoring with no segment started, blocks below the start
    threshold are dropped without a trace, whether they are silent or in
    the hold region between the two thresholds: the recorder is unchanged
    after any number of them. *)
Theorem quiet_blocks_ignored_while_idle (evs : list event) (r : Recorder) :
  loop_alive r = true -> running r = true -> has_started_song r = false ->
  Forall quiet_block evs ->
  run evs r = r.
Proof.
  intros Ha Hr Hs. induction evs as [|e evs IH]; intros Hall;
    [reflexivity|].
  inversion Hall as [|e' l' He Hevs]; subst.
  destruct e as [now|data level now ok]; [contradiction|]. simpl in He.
  change (run (Block_in data level now ok :: evs) r)
    with (run evs (record_loop data level now ok r)).
  rewrite (record_loop_live _ _ _ _ _ Ha Hr). unfold loop_body.
  rewrite (Qle_bool_false _ _ He), Hs. simpl. apply IH, Hevs.
Qed.

Lemma quiet_blocks_ignored_while_idle_witness :
  run [hush 1; hum 2; hush 3] (run [Toggle 0] init_recorder)
  = run [Toggle 0] init_recorder.
Proof.
  apply (quiet_blocks_ignored_while_idle [hush 1; hum 2; hush 3]
           (run [Toggle 0] init_recorder) eq_refl eq_refl eq_refl).
  repeat constructor.
Defined.

(** ** The block in flight at a stop request *)

Lemma stop_leaves_idle (evs : list event) (t : Q) :
  running (run evs init_recorder) = true ->
  idle (toggle t (run evs init_recorder))
  /\ running (toggle t (run evs init_recorder)) = false
  /\ loop_alive (toggle t (run evs init_recorder))
     = loop_alive (run evs init_recorder).
Proof.
  intros Hr.
  pose proof (InvG_run_from evs init_recorder InvG_init) as HG.
  set (r := run evs init_recorder) in *.
  unfold toggle, _finalize_if_needed. rewrite Hr. simpl.
  destruct (has_started_song r) eqn:Hs.
  - split; [apply idle_after_finalize|].
    destruct (finalize_keeps_env t (set_running false r)) as [E1 E2].
    rewrite E1, E2. split; reflexivity.
  - split; [exact (invg_idle _ HG Hs)|]. split; reflexivity.
Qed.

Lemma in_flight_loud_block (r : Recorder) (data : list Q) (level now : Q) :
  idle r -> running r = false -> loop_alive r = true ->
  (START_RMS <= level)%Q ->
  record_loop data level now true r
  = set_loop_alive false
      (set_silence_start None
         (after_write data (wave_open_wb CHANNELS 2 SAMPLE_RATE)
            (_start_new_song now r))).
Proof.
  intros (Hrec & _) Hr Ha Hl. unfold record_loop.
  rewrite Ha, (loop_body_start _ _ _ _ Hrec Hl). simpl. rewrite Hr.
  reflexivity.
Qed.

(** X8: a stop request does not keep the block in flight from being
    processed.  After a stop with the capture thread alive, the next block
    goes through the body of the loop although monitoring is off: below
    the start threshold it changes nothing, at or above it a new temporary
    file is opened and the block written to it, with nothing saved.  The
    thread then leaves the loop, and further blocks change nothing. *)
Theorem in_flight_block_after_stop (evs more : list event) (t : Q)
    (data : list Q) (level now : Q) :
  running (run evs init_recorder) = true ->
  loop_alive (run evs init_recorder) = true ->
  Forall is_block more ->
  ((level < START_RMS)%Q ->
   run (Toggle t :: Block_in data level now true :: more)
     (run evs init_recorder)
   = set_loop_alive false (toggle t (run evs init_recorder)))
  /\ ((START_RMS <= level)%Q ->
      recording
        (run (Toggle t :: Block_in data level now true :: more)
           (run evs init_recorder)) = true
      /\ has_started_song
           (run (Toggle t :: Block_in data level now true :: more)
              (run evs init_recorder)) = true
      /\ temp_wav
           (run (Toggle t :: Block_in data level now true :: more)
              (run evs init_recorder))
         = Some (mkWave CHANNELS 2 SAMPLE_RATE (tobytes (to_pcm data)))
      /\ tail_buffer
           (run (Toggle t :: Block_in data level now true :: more)
              (run evs init_recorder)) = [to_pcm data]
      /\ running
           (run (Toggle t :: Block_in data level now true :: more)
              (run evs init_recorder)) = false
      /\ songs
           (run (Toggle t :: Block_in data level now true :: more)
              (run evs init_recorder))
         = songs (toggle t (run evs init_recorder))).
Proof.
  intros Hr Ha Hmore.
  destruct (stop_leaves_idle evs t Hr) as (Hidle & Hr1 & Ha1).
  rewrite Ha in Ha1.
  set (r1 := toggle t (run evs init_recorder)) in *.
  change (run (Toggle t :: Block_in data level now true :: more)
            (run evs init_recorder))
    with (run more (record_loop data level now true r1)).
  split.
  - intros Hl.
    assert (E : record_loop data level now true r1 = set_loop_alive false r1).
    { unfold record_loop, loop_body. rewrite Ha1, (Qle_bool_false _ _ Hl).
      destruct Hidle as (_ & Hs & _). rewrite Hs. simpl. rewrite Hr1.
      reflexivity. }
    rewrite E. apply dead_loop_ignores_blocks; [reflexivity|exact Hmore].
  - intros Hl. rewrite (in_flight_loud_block r1 data level now Hidle Hr1 Ha1 Hl).
    rewrite dead_loop_ignores_blocks; [|reflexivity|exact Hmore].
    simpl. repeat split. exact Hr1.
Qed.

Lemma in_flight_block_after_stop_witness :
  temp_wav
    (run (Toggle 2 :: loud 3 :: [loud 4]) (run [Toggle 0; loud 1] init_recorder))
  = Some (mkWave CHANNELS 2 SAMPLE_RATE (tobytes (to_pcm sample_block)))
  /\ songs
       (run (Toggle 2 :: loud 3 :: [loud 4])
          (run [Toggle 0; loud 1] init_recorder))
     = songs (toggle 2 (run [Toggle 0; loud 1] init_recorder)).
Proof.
  destruct (in_flight_block_after_stop [Toggle 0; loud 1] [loud 4] 2
              sample_block (5 # 100) 3 eq_refl eq_refl) as [_ H].
  - repeat constructor.
  - destruct H as (_ & _ & H3 & _ & _ & H6).
    + vm_compute. discriminate.
    + split; [exact H3|exact H6].
Defined.

(** ** Silence that is interrupted *)

Lemma silent_stretch_run (r : Recorder) (w : Wave) (first : event)
    (mid : list event) :
  loop_alive r = true -> running r = true ->
  has_started_song r = true -> temp_wav r = Some w ->
  silence_start r = None ->
  silent_block first -> Forall silent_block mid ->
  Forall (fun e => (clock e - clock first < SILENCE_TIME)%Q) mid ->
  loop_alive (run (first :: mid) r) = true
  /\ running (run (first :: mid) r) = true
  /\ has_started_song (run (first :: mid) r) = true
  /\ temp_wav (run (first :: mid) r)
     = Some (writeframes w (written (first :: mid)))
  /\ silence_start (run (first :: mid) r) = Some (clock first)
  /\ songs (run (first :: mid) r) = songs r
  /\ song_index (run (first :: mid) r) = song_index r.
Proof.
  intros Ha Hr Hs Hw Ht Hf Hm Hclk.
  destruct (silent_first_step r w first Ha Hr Hs Hw Ht Hf)
    as (F1 & F2 & F3 & F4 & F5 & F6 & F7).
  change (run (first :: mid) r) with (run mid (step r first)).
  destruct (silent_wait_run mid (clock first) (step r first)
              (writeframes w (block_bytes first)) F1 F2 F3 F4 F5 Hm Hclk)
    as (H1 & H2 & H3 & H4 & H5 & H6 & H7).
  rewrite written_cons, <- writeframes_app.
  repeat split; auto; congruence.
Qed.

(** X9: the silence timer does not add up across an interruption.  In a
    segment, a stretch of silent blocks shorter than [SILENCE_TIME], one
    block at or above the silence threshold, and a second silent stretch
    shorter than [SILENCE_TIME] save nothing, however long the two
    stretches are together; the timer then runs from the first block of
    the second stretch. *)
Theorem interrupted_silence_does_not_finalize (evs0 : list event)
    (first1 : event) (mid1 : list event) (a : event)
    (first2 : event) (mid2 : list event) :
  loop_alive (run evs0 init_recorder) = true ->
  running (run evs0 init_recorder) = true ->
  has_started_song (run evs0 init_recorder) = true ->
  silence_start (run evs0 init_recorder) = None ->
  silent_block first1 -> Forall silent_block mid1 ->
  Forall (fun e => (clock e - clock first1 < SILENCE_TIME)%Q) mid1 ->
  audible_block a ->
  silent_block first2 -> Forall silent_block mid2 ->
  Forall (fun e => (clock e - clock first2 < SILENCE_TIME)%Q) mid2 ->
  songs (run (evs0 ++ (first1 :: mid1) ++ [a] ++ first2 :: mid2)
           init_recorder)
  = songs (run evs0 init_recorder)
  /\ has_started_song
       (run (evs0 ++ (first1 :: mid1) ++ [a] ++ first2 :: mid2)
          init_recorder) = true
  /\ silence_start
       (run (evs0 ++ (first1 :: mid1) ++ [a] ++ first2 :: mid2)
          init_recorder) = Some (clock first2).
Proof.
  intros Ha Hr Hs Ht Hf1 Hm1 Hc1 Haud Hf2 Hm2 Hc2.
  set (r := run evs0 init_recorder) in *.
  destruct (inv_open _ (Inv_run evs0) Hs) as [w Hw]. fold r in Hw.
  rewrite !run_app. fold r.
  destruct (silent_stretch_run r w first1 mid1 Ha Hr Hs Hw Ht Hf1 Hm1 Hc1)
    as (A1 & A2 & A3 & A4 & _ & A6 & _).
  set (r1 := run (first1 :: mid1) r) in *.
  assert (Hrec : recording r1 = true).
  { assert (HG : InvG r1).
    { unfold r1, r. rewrite <- run_app.
      apply InvG_run_from, InvG_init. }
    rewrite (invg_flags _ HG). exact A3. }
  destruct (audible_run [a] r1 _ A1 A2 Hrec A3 A4
              (Forall_cons a Haud (Forall_nil _)))
    as (B1 & B2 & _ & B4 & B5 & B6 & _ & B8 & _).
  specialize (B8 ltac:(discriminate)).
  set (r2 := run [a] r1) in *.
  destruct (silent_stretch_run r2 _ first2 mid2 B1 B2 B4 B5 B8 Hf2 Hm2 Hc2)
    as (_ & _ & C3 & _ & C5 & C6 & _).
  split; [congruence|]. split; [exact C3|exact C5].
Qed.

Lemma interrupted_silence_does_not_finalize_witness :
  songs (run ([Toggle 0; loud 1] ++ (hush 2 :: [hush 15]) ++ [hum 16]
              ++ hush 17 :: [hush 30])
           init_recorder)
  = songs (run [Toggle 0; loud 1] init_recorder).
Proof.
  apply (interrupted_silence_does_not_finalize [Toggle 0; loud 1]
           (hush 2) [hush 15] (hum 16) (hush 17) [hush 30]
           eq_refl eq_refl eq_refl eq_refl).
  - split; reflexivity.
  - repeat constructor.
  - repeat constructor.
  - split; [vm_compute; discriminate|reflexivity].
  - split; reflexivity.
  - repeat constructor.
  - repeat constructor.
Defined.

(** ** Stopping after a failed write *)



(** X11: when the write of the block that opens a segment fails, the
    segment stays open and empty; a stop request then saves a file with
    the right header and no sample bytes, and uses up a sequence number. *)
Theorem failed_first_write_saves_empty_song (r : Recorder) (data : list Q)
    (level now t : Q) :
  loop_alive r = true -> running r = true -> recording r = false ->
  (START_RMS <= level)%Q ->
  exists s,
    songs (run [Block_in data level now false; Toggle t] r) = songs r ++ [s]
    /\ wdata (wav s) = []
    /\ header_ok (wav s)
    /\ dst s = mkSavePath (format_03d (song_index r)) t
    /\ song_index (run [Block_in data level now false; Toggle t] r)
       = S (song_index r)
    /\ idle (run [Block_in data level now false; Toggle t] r).
Proof.
  intros Ha Hr Hrec Hl.
  assert (E : step r (Block_in data level now false)
              = set_loop_alive false (_start_new_song now r)).
  { simpl step. rewrite (record_loop_live _ _ _ _ _ Ha Hr).
    rewrite (loop_body_failed _ _ _ _ (or_introl Hl)).
    unfold at_raise. rewrite (Qle_bool_true _ _ Hl), Hrec. reflexivity. }
  change (run [Block_in data level now false; Toggle t] r)
    with (toggle t (step r (Block_in data level now false))).
  rewrite E. unfold toggle, _finalize_if_needed. simpl. rewrite Hr. simpl.
  eexists. split; [reflexivity|]. simpl. repeat split.
Qed.

Lemma failed_first_write_saves_empty_song_witness :
  exists s,
    songs (run [Block_in sample_block (5 # 100) 1 false; Toggle 2]
             (run [Toggle 0] init_recorder))
    = songs (run [Toggle 0] init_recorder) ++ [s]
    /\ wdata (wav s) = [].
Proof.
  destruct (failed_first_write_saves_empty_song
              (run [Toggle 0] init_recorder) sample_block (5 # 100) 1 2
              eq_refl eq_refl eq_refl) as (s & H1 & H2 & _).
  - vm_compute. discriminate.
  - exists s. split; [exact H1|exact H2].
Defined.

(** ** What a saved file can contain *)

(** X12: whatever the events and the block sizes, a saved file holds a
    prefix of the temporary file it was made from: bytes are dropped from
    the end only, never added, reordered or changed. *)
Theorem saved_file_is_prefix_of_capture (evs : list event) (s : Song) :
  In s (songs (run evs init_recorder)) ->
  (exists rest, wdata (src s) = wdata (wav s) ++ rest)
  /\ saved_bytes s <= captured_bytes s.
Proof.
  intros Hin. destruct (song_of_run_ok evs s Hin) as (_ & Hd & _).
  assert (H : exists rest, wdata (src s) = wdata (wav s) ++ rest).
  { rewrite Hd. unfold trimmed, frames_read, readframes.
    set (m := Z.to_nat (getnframes (src s) * framesize (src s))).
    destruct (trim_of s <? len (firstn m (wdata (src s)))).
    - set (k := Z.to_nat (len (firstn m (wdata (src s))) - trim_of s)).
      exists (skipn k (firstn m (wdata (src s))) ++ skipn m (wdata (src s))).
      rewrite app_assoc, firstn_skipn, firstn_skipn. reflexivity.
    - exists (skipn m (wdata (src s))). now rewrite firstn_skipn. }
  split; [exact H|]. destruct H as [rest E].
  unfold saved_bytes, captured_bytes. rewrite E, len_app.
  pose proof (len_nonneg rest). lia.
Qed.

Lemma saved_file_is_prefix_of_capture_witness :
  saved_bytes (first_song single_block_session)
  <= captured_bytes (first_song single_block_session).
Proof.
  apply (saved_file_is_prefix_of_capture single_block_session
           (first_song single_block_session)).
  apply first_song_In. vm_compute. constructor.
Defined.

(** ** Monitoring goes on after a segment *)

Lemma silent_expiry_env (r : Recorder) (w : Wave) (t0 : Q) (last : event) :
  loop_alive r = true -> running r = true ->
  has_started_song r = true -> temp_wav r = Some w ->
  silence_start r = Some t0 -> silent_block last ->
  (SILENCE_TIME <= clock last - t0)%Q ->
  loop_alive (step r last) = true /\ running (step r last) = true.
Proof.
  intros Ha Hr Hs Hw Ht Hf Hx.
  destruct last as [now|data level now ok]; [contradiction|].
  destruct Hf as [Hl Hok]. subst ok. simpl in Hx. simpl step.
  rewrite (record_loop_live _ _ _ _ _ Ha Hr).
  rewrite (loop_body_silent _ _ _ w _ Hs Hw Hl), Ht.
  rewrite (Qle_bool_true _ _ Hx).
  destruct (finalize_keeps_env now (after_write data w r)) as [E1 E2].
  rewrite E1, E2. split; assumption.
Qed.

(** X13: after a segment has ended by silence the loop keeps listening:
    the next block at or above the start threshold opens a fresh segment
    that holds this block only, and the counter already stands at the
    next number. *)
Theorem monitoring_resumes_after_expiry (r : Recorder) (w : Wave)
    (first last : event) (mid : list event) (data : list Q) (level now : Q) :
  loop_alive r = true -> running r = true ->
  has_started_song r = true -> temp_wav r = Some w ->
  silence_start r = None ->
  silent_block first -> Forall silent_block mid -> silent_block last ->
  Forall (fun e => (clock e - clock first < SILENCE_TIME)%Q) mid ->
  (SILENCE_TIME <= clock last - clock first)%Q ->
  (START_RMS <= level)%Q ->
  loop_alive (run (first :: mid ++ [last]) r) = true
  /\ running (run (first :: mid ++ [last]) r) = true
  /\ recording
       (run (first :: mid ++ [last] ++ [Block_in data level now true]) r)
     = true
  /\ temp_wav
       (run (first :: mid ++ [last] ++ [Block_in data level now true]) r)
     = Some (mkWave CHANNELS 2 SAMPLE_RATE (tobytes (to_pcm data)))
  /\ tail_buffer
       (run (first :: mid ++ [last] ++ [Block_in data level now true]) r)
     = [to_pcm data]
  /\ song_index
       (run (first :: mid ++ [last] ++ [Block_in data level now true]) r)
     = S (song_index r).
Proof.
  intros Ha Hr Hs Hw Ht Hf Hm Hl Hclk Hx Hlev.
  destruct (silent_stretch_run r w first mid Ha Hr Hs Hw Ht Hf Hm Hclk)
    as (A1 & A2 & A3 & A4 & A5 & _ & A7).
  set (r1 := run (first :: mid) r) in *.
  destruct (silent_expiry_env r1 _ (clock first) last A1 A2 A3 A4 A5 Hl Hx)
    as [B1 B2].
  destruct (silent_expiry_step r1 _ (clock first) last A1 A2 A3 A4 A5 Hl Hx)
    as (s & _ & _ & _ & _ & Hidle & Hidx).
  assert (E2 : run (first :: mid ++ [last]) r = step r1 last).
  { change (first :: mid ++ [last]) with ((first :: mid) ++ [last]).
    rewrite run_app. reflexivity. }
  assert (E3 : run (first :: mid ++ [last] ++ [Block_in data level now true]) r
               = step (step r1 last) (Block_in data level now true)).
  { change (first :: mid ++ [last] ++ [Block_in data level now true])
      with ((first :: mid) ++ [last; Block_in data level now true]).
    rewrite run_app. reflexivity. }
  rewrite E2, E3. split; [exact B1|]. split; [exact B2|].
  destruct Hidle as (Hrec & _).
  simpl step at 1 3 5 7.
  rewrite (record_loop_live _ _ _ _ _ B1 B2).
  rewrite (loop_body_start _ _ _ _ Hrec Hlev). simpl.
  repeat split. rewrite Hidx, A7. reflexivity.
Qed.

Lemma monitoring_resumes_after_expiry_witness :
  tail_buffer
    (run (hush 2 :: [hush 3] ++ [hush 22] ++ [loud 40])
       (run [Toggle 0; loud 1] init_recorder))
  = [to_pcm sample_block].
Proof.
  apply (monitoring_resumes_after_expiry
           (run [Toggle 0; loud 1] init_recorder)
           (mkWave CHANNELS 2 SAMPLE_RATE (tobytes (to_pcm sample_block)))
           (hush 2) (hush 22) [hush 3] sample_block (5 # 100) 40
           eq_refl eq_refl eq_refl eq_refl eq_refl).
  - split; reflexivity.
  - repeat constructor.
  - split; reflexivity.
  - repeat constructor.
  - vm_compute. discriminate.
  - vm_compute. discriminate.
Defined.

(** ** Restarting *)

(** X14: a segment opened by the block in flight at a stop request is
    thrown away by the next start.  After a stop with the capture thread
    alive and a block at or above the start threshold, a segment is open
    while monitoring is off; the start request that follows resets the
    recorder: no file is saved for the segment, the counter does not move,
    and monitoring begins from the idle state. *)
Theorem start_discards_in_flight_segment (evs : list event) (t1 : Q)
    (data : list Q) (level now t2 : Q) :
  running (run evs init_recorder) = true ->
  loop_alive (run evs init_recorder) = true ->
  (START_RMS <= level)%Q ->
  has_started_song
    (run [Toggle t1; Block_in data level now true] (run evs init_recorder))
  = true
  /\ running
       (run [Toggle t1; Block_in data level now true] (run evs init_recorder))
     = false
  /\ songs
       (run [Toggle t1; Block_in data level now true; Toggle t2]
          (run evs init_recorder))
     = songs (toggle t1 (run evs init_recorder))
  /\ song_index
       (run [Toggle t1; Block_in data level now true; Toggle t2]
          (run evs init_recorder))
     = song_index (toggle t1 (run evs init_recorder))
  /\ idle
       (run [Toggle t1; Block_in data level now true; Toggle t2]
          (run evs init_recorder))
  /\ running
       (run [Toggle t1; Block_in data level now true; Toggle t2]
          (run evs init_recorder)) = true.
Proof.
  intros Hr Ha Hl.
  destruct (stop_leaves_idle evs t1 Hr) as (Hidle & Hr1 & Ha1).
  rewrite Ha in Ha1.
  set (r1 := toggle t1 (run evs init_recorder)) in *.
  change (run [Toggle t1; Block_in data level now true] (run evs init_recorder))
    with (record_loop data level now true r1).
  change (run [Toggle t1; Block_in data level now true; Toggle t2]
            (run evs init_recorder))
    with (toggle t2 (record_loop data level now true r1)).
  rewrite (in_flight_loud_block r1 data level now Hidle Hr1 Ha1 Hl).
  unfold toggle at 1 2 3 4. simpl. rewrite Hr1. simpl.
  repeat split.
Qed.

Lemma start_discards_in_flight_segment_witness :
  has_started_song
    (run [Toggle 2; Block_in sample_block (5 # 100) 3 true]
       (run [Toggle 0; loud 1] init_recorder)) = true
  /\ songs
       (run [Toggle 2; Block_in sample_block (5 # 100) 3 true; Toggle 4]
          (run [Toggle 0; loud 1] init_recorder))
     = songs (toggle 2 (run [Toggle 0; loud 1] init_recorder)).
Proof.
  destruct (start_discards_in_flight_segment [Toggle 0; loud 1] 2
              sample_block (5 # 100) 3 4 eq_refl eq_refl)
    as (H1 & _ & H3 & _).
  - vm_compute. discriminate.
  - split; [exact H1|exact H3].
Defined.
